(** * The fixed-point currency engine of [src/Lesson 2/Task-1.ts]

    A shallow embedding of the [Currency] class and of [parse], with the
    properties the specification states about them.

    Modelling conventions.
    - A JavaScript [number] is an exact rational, or one of [NaN],
      [+Infinity], [-Infinity].  Every arithmetic result is exact: the
      rounding, overflow and underflow of IEEE binary64 are not modelled, and
      neither is the sign of zero.  On inputs whose intermediate results are
      exactly representable in binary64 the model and the engine agree; the
      concrete inputs evaluated below are of that kind.
    - A JavaScript string is a list of 8-bit characters.
    - An exception is a value [Throw e] of the [result] type.
    - The settings are typed: [precision] is an integer, the decimal mark is
      one character that is literal in the regular expressions [parse]
      builds from it, flags are booleans.
    - [parse] is called as a plain function, so the [this] it reads in
      [this.value] is not the operand; its binding is a parameter of the
      model ([ThisBinding]).
    - The loop of [distribute] takes fuel; every other function is total.

    The emitter in the first hundred lines of the file is a separate
    component, modelled after the engine.
    - Event types are strings; handlers are function objects, compared by
      identity.  What a call of a handler does is a parameter of the model
      ([Behaviour]): a function on the whole state, so that a handler may
      call the emitter again; a handler that does not return is not
      represented.
    - Arrays are objects in a heap, referred to by address; the objects
      made by [EventFunc] are values.
    - One emitter made by [Emitter()] is modelled, with the methods of its
      prototype.  [Emitter.Event] and [Emitter.mixin] are not modelled. *)

From Stdlib Require Import Ascii String.
From Stdlib Require Import ZArith QArith Qround Qabs Qpower Lia Lqa List Bool.
Import ListNotations.
Local Open Scope Z_scope.

(** ** Numbers *)

Inductive number : Type :=
| NaN
| PInf
| NInf
| Fin (q : Q).

(** Finite results are kept in lowest terms, so that equal numbers are equal
    terms. *)
Definition fin (q : Q) : number := Fin (Qred q).

Definition of_Z (z : Z) : number := Fin (inject_Z z).

Definition Qsgn (q : Q) : Z := Z.sgn (Qnum q).

(** Truncation toward zero. *)
Definition Qtrunc (q : Q) : Z := Z.quot (Qnum q) (Zpos (Qden q)).

Definition inf_of_sign (s : Z) : number :=
  match s with
  | Z0 => NaN
  | Zpos _ => PInf
  | Zneg _ => NInf
  end.

Definition nneg (x : number) : number :=
  match x with
  | NaN => NaN
  | PInf => NInf
  | NInf => PInf
  | Fin q => fin (- q)
  end.

(** [x + y] *)
Definition nadd (x y : number) : number :=
  match x, y with
  | NaN, _ | _, NaN => NaN
  | PInf, NInf | NInf, PInf => NaN
  | PInf, _ | _, PInf => PInf
  | NInf, _ | _, NInf => NInf
  | Fin a, Fin b => fin (a + b)
  end.

(** [x - y] *)
Definition nsub (x y : number) : number := nadd x (nneg y).

(** [x * y] *)
Definition nmul (x y : number) : number :=
  match x, y with
  | NaN, _ | _, NaN => NaN
  | PInf, PInf | NInf, NInf => PInf
  | PInf, NInf | NInf, PInf => NInf
  | PInf, Fin b | Fin b, PInf => inf_of_sign (Qsgn b)
  | NInf, Fin b | Fin b, NInf => inf_of_sign (- Qsgn b)
  | Fin a, Fin b => fin (a * b)
  end.

(** [x / y]; a zero divisor is the positive zero. *)
Definition ndiv (x y : number) : number :=
  match x, y with
  | NaN, _ | _, NaN => NaN
  | (PInf | NInf), (PInf | NInf) => NaN
  | PInf, Fin b => if Qsgn b <? 0 then NInf else PInf
  | NInf, Fin b => if Qsgn b <? 0 then PInf else NInf
  | Fin _, (PInf | NInf) => Fin 0
  | Fin a, Fin b =>
      if Qsgn b =? 0 then inf_of_sign (Qsgn a) else fin (a / b)
  end.

(** [x % y]: the remainder has the sign of the dividend. *)
Definition nrem (x y : number) : number :=
  match x, y with
  | NaN, _ | _, NaN => NaN
  | (PInf | NInf), _ => NaN
  | Fin a, (PInf | NInf) => Fin a
  | Fin a, Fin b =>
      if Qsgn b =? 0 then NaN
      else fin (a - b * inject_Z (Qtrunc (a / b)))
  end.

(** [x >= y] and [x > y]; any comparison with [NaN] is false. *)
Definition nge (x y : number) : bool :=
  match x, y with
  | NaN, _ | _, NaN => false
  | PInf, _ => true
  | _, NInf => true
  | NInf, _ => false
  | Fin _, PInf => false
  | Fin a, Fin b => Qle_bool b a
  end.

Definition ngt (x y : number) : bool :=
  match x, y with
  | NaN, _ | _, NaN => false
  | PInf, PInf | NInf, NInf => false
  | PInf, _ => true
  | _, NInf => true
  | NInf, _ => false
  | Fin _, PInf => false
  | Fin a, Fin b => negb (Qle_bool a b)
  end.

(** ToBoolean on a number: [NaN] and zero are falsy. *)
Definition truthy (x : number) : bool :=
  match x with
  | NaN => false
  | PInf | NInf => true
  | Fin q => negb (Qsgn q =? 0)
  end.

(** [x || y] on numbers. *)
Definition nor (x y : number) : number := if truthy x then x else y.

Definition Math_floor (x : number) : number :=
  match x with
  | Fin q => of_Z (Qfloor q)
  | _ => x
  end.

Definition Math_ceil (x : number) : number :=
  match x with
  | Fin q => of_Z (Qceiling q)
  | _ => x
  end.

Definition Math_abs (x : number) : number :=
  match x with
  | NaN => NaN
  | PInf | NInf => PInf
  | Fin q => fin (Qabs q)
  end.

(** [Math.round]: the nearest integer, a tie going toward [+Infinity]. *)
Definition Math_round (x : number) : number :=
  match x with
  | Fin q => of_Z (Qfloor (q + (1 # 2)))
  | _ => x
  end.

(** [Math.pow(10, p)] for an integer [p]. *)
Definition Math_pow10 (p : Z) : number := fin (Qpower (10 # 1) p).

(** ToInt32: truncate, wrap modulo 2^32, read as a signed 32-bit integer. *)
Definition ToInt32 (x : number) : Z :=
  match x with
  | Fin q =>
      let m := Qtrunc q mod 2 ^ 32 in
      if 2 ^ 31 <=? m then m - 2 ^ 32 else m
  | _ => 0
  end.

(** [~x] *)
Definition BitwiseNot (x : number) : number := of_Z (Z.lnot (ToInt32 x)).

(** ** Strings *)

Definition jsstring : Type := list ascii.

(** A string literal. *)
Definition lit (s : string) : jsstring := list_ascii_of_string s.

Definition code (c : ascii) : Z := Z.of_N (N_of_ascii c).

Definition is_digit (c : ascii) : bool := (48 <=? code c) && (code c <=? 57).

Definition is_letter (c : ascii) : bool :=
  ((65 <=? code c) && (code c <=? 90)) || ((97 <=? code c) && (code c <=? 122)).

(** [\w]: letters, digits and the underscore. *)
Definition is_word (c : ascii) : bool :=
  is_letter c || is_digit c || (code c =? 95).

(** White space and line terminators, as [Number] trims them. *)
Definition is_whitespace (c : ascii) : bool :=
  ((9 <=? code c) && (code c <=? 13)) || (code c =? 32) || (code c =? 160).

(** The characters the regular expression dot does not match. *)
Definition is_line_terminator (c : ascii) : bool :=
  (code c =? 10) || (code c =? 13).

Definition digit_value (c : ascii) : Z := code c - 48.

Definition digit_char (d : Z) : ascii := ascii_of_N (Z.to_N (48 + d)).

(** The value of a string of decimal digits, most significant first. *)
Definition digits_value (s : jsstring) : Z :=
  fold_left (fun acc c => 10 * acc + digit_value c) s 0.

(** The [w] low decimal digits of [n], most significant first. *)
Fixpoint fixed_digits (w : nat) (n : Z) : jsstring :=
  match w with
  | O => []
  | S w' => fixed_digits w' (n / 10) ++ [digit_char (n mod 10)]
  end.

Fixpoint strip_zeros (s : jsstring) : jsstring :=
  match s with
  | c :: r => if Ascii.eqb c "0" then strip_zeros r else s
  | [] => []
  end.

(** The decimal digits of [n >= 0] without leading zeros; ["0"] for zero. *)
Definition digits_of (n : Z) : jsstring :=
  match strip_zeros (fixed_digits (S (Z.to_nat (Z.log2 n))) n) with
  | [] => ["0"%char]
  | s => s
  end.

Definition all_digits (s : jsstring) : bool := forallb is_digit s.

Definition nonempty (s : jsstring) : bool :=
  match s with
  | [] => false
  | _ :: _ => true
  end.

Definition string_eqb (s t : jsstring) : bool :=
  if list_eq_dec ascii_dec s t then true else false.

Fixpoint trim_left (s : jsstring) : jsstring :=
  match s with
  | c :: r => if is_whitespace c then trim_left r else s
  | [] => []
  end.

Fixpoint trim_right (s : jsstring) : jsstring :=
  match s with
  | [] => []
  | c :: r =>
      match trim_right r with
      | [] => if is_whitespace c then [] else [c]
      | r' => c :: r'
      end
  end.

Definition trim (s : jsstring) : jsstring := trim_right (trim_left s).

(** Split at the first character satisfying [p]: the part before it and,
    when there is one, the part after it. *)
Fixpoint split_first (p : ascii -> bool) (s : jsstring)
  : jsstring * option jsstring :=
  match s with
  | [] => ([], None)
  | c :: r =>
      if p c then ([], Some r)
      else let (b, a) := split_first p r in (c :: b, a)
  end.

(** *** ToNumber on strings ([Number(s)], unary plus) *)

Definition is_exp_mark (c : ascii) : bool := (code c =? 101) || (code c =? 69).

Definition is_dot (c : ascii) : bool := code c =? 46.

(** ExponentPart without its [e]: an optional sign and at least one digit. *)
Definition split_sign (t : jsstring) : bool * jsstring :=
  match t with
  | c :: r =>
      if Ascii.eqb c "-" then (true, r)
      else if Ascii.eqb c "+" then (false, r)
      else (false, t)
  | [] => (false, t)
  end.

Definition parse_exponent (e : jsstring) : option Z :=
  let (neg, ds) := split_sign e in
  if nonempty ds && all_digits ds
  then Some (if neg then - digits_value ds else digits_value ds)
  else None.

(** StrUnsignedDecimalLiteral other than [Infinity]: digits with an optional
    fraction and exponent; at least one digit in the mantissa. *)
Definition parse_unsigned_decimal (s : jsstring) : option Q :=
  let (m, e) := split_first is_exp_mark s in
  let ex := match e with
            | None => Some 0
            | Some e' => parse_exponent e'
            end in
  match ex with
  | None => None
  | Some x =>
      let (ip, f) := split_first is_dot m in
      let fp := match f with
                | None => []
                | Some f' => f'
                end in
      if all_digits ip && all_digits fp && (nonempty ip || nonempty fp)
      then
        let scale := 10 ^ Z.of_nat (length fp) in
        Some (inject_Z (digits_value ip * scale + digits_value fp)
              / inject_Z scale * Qpower (10 # 1) x)%Q
      else None
  end.

(** The value of a digit in a radix up to 16. *)
Definition radix_digit (base : Z) (c : ascii) : option Z :=
  let v :=
    if is_digit c then code c - 48
    else if (97 <=? code c) && (code c <=? 102) then code c - 87
    else if (65 <=? code c) && (code c <=? 70) then code c - 55
    else base in
  if v <? base then Some v else None.

Fixpoint radix_value (base : Z) (s : jsstring) (acc : Z) : option Z :=
  match s with
  | [] => Some acc
  | c :: r =>
      match radix_digit base c with
      | Some v => radix_value base r (base * acc + v)
      | None => None
      end
  end.

(** NonDecimalIntegerLiteral: [0x], [0o] and [0b] prefixes, either case. *)
Definition radix_prefix (c : ascii) : option Z :=
  if (code c =? 120) || (code c =? 88) then Some 16
  else if (code c =? 111) || (code c =? 79) then Some 8
  else if (code c =? 98) || (code c =? 66) then Some 2
  else None.

(** StrDecimalLiteral: an optional sign before [Infinity] or an unsigned
    decimal literal. *)
Definition parse_signed_decimal (t : jsstring) : number :=
  let (neg, body) := split_sign t in
  if string_eqb body (lit "Infinity") then (if neg then NInf else PInf)
  else
    match parse_unsigned_decimal body with
    | Some q => fin (if neg then - q else q)
    | None => NaN
    end.

(** The radix and the digits of a literal that starts with [0x], [0o] or
    [0b]. *)
Definition split_radix (t : jsstring) : option (Z * jsstring) :=
  match t with
  | z :: c :: r =>
      if Ascii.eqb z "0" then
        match radix_prefix c with
        | Some base => Some (base, r)
        | None => None
        end
      else None
  | _ => None
  end.

(** StringToNumber. *)
Definition Number (s : jsstring) : number :=
  let t := trim s in
  match t with
  | [] => Fin 0
  | _ :: _ =>
      match split_radix t with
      | Some (base, r) =>
          if nonempty r
          then match radix_value base r 0 with
               | Some v => of_Z v
               | None => NaN
               end
          else NaN
      | None => parse_signed_decimal t
      end
  end.

(** ** Exceptions *)

Inductive JsError : Type :=
| InvalidInput     (* Error('Invalid Input') *)
| RangeError
| TypeError.

Inductive result (A : Type) : Type :=
| Ok (a : A)
| Throw (e : JsError).

Arguments Ok {A} a.
Arguments Throw {A} e.

Definition bind {A B : Type} (c : result A) (k : A -> result B) : result B :=
  match c with
  | Ok a => k a
  | Throw e => Throw e
  end.

Notation "x <- c ;; k" := (bind c (fun x => k))
  (at level 61, c at next level, right associativity).

(** *** Number.prototype.toFixed *)

(** The finite case: [n] is the integer nearest to [|x| * 10^f], the larger
    one on a tie; the digits of [n] are cut [f] places from the right. *)
Definition toFixed_finite (f : Z) (q : Q) : jsstring :=
  let scale := 10 ^ f in
  let n := Qfloor (Qabs q * inject_Z scale + (1 # 2)) in
  (if Qsgn q <? 0 then ["-"%char] else [])
  ++ digits_of (n / scale)
  ++ (if f =? 0 then []
      else "."%char :: fixed_digits (Z.to_nat f) (n mod scale)).

(** [x.toFixed(f)] for an integer [f].  Magnitudes from [10^21] on, which
    the engine prints in exponent notation, are printed positionally. *)
Definition toFixed (f : Z) (x : number) : result jsstring :=
  if (f <? 0) || (100 <? f) then Throw RangeError
  else
    match x with
    | NaN => Ok (lit "NaN")
    | PInf => Ok (lit "Infinity")
    | NInf => Ok (lit "-Infinity")
    | Fin q => Ok (toFixed_finite f q)
    end.

(** ** Regular expressions and [String.prototype.replace] *)

(** GetSubstitution: the expansion of a replacement template for one match.
    [before] and [after] are the parts of the subject around the match and
    [captures] the captured groups.  A reference to a group that does not
    exist stays as written, after a two-digit reference was retried as a
    one-digit one. *)
Fixpoint GetSubstitution (matched before after : jsstring)
    (captures : list jsstring) (template : jsstring) : jsstring :=
  let m := Z.of_nat (List.length captures) in
  let group (i : Z) := nth (Z.to_nat (i - 1)) captures [] in
  match template with
  | [] => []
  | c :: rest =>
      if negb (Ascii.eqb c "$") then
        c :: GetSubstitution matched before after captures rest
      else
        match rest with
        | [] => [c]
        | d :: rest' =>
            if Ascii.eqb d "$" then
              "$"%char :: GetSubstitution matched before after captures rest'
            else if Ascii.eqb d "&" then
              matched ++ GetSubstitution matched before after captures rest'
            else if Ascii.eqb d "`" then
              before ++ GetSubstitution matched before after captures rest'
            else if Ascii.eqb d "'" then
              after ++ GetSubstitution matched before after captures rest'
            else if is_digit d then
              let one := digit_value d in
              let two :=
                match rest' with
                | d' :: _ =>
                    if is_digit d' then Some (10 * one + digit_value d')
                    else None
                | [] => None
                end in
              match two, rest' with
              | Some i, _ :: rest'' =>
                  if (1 <=? i) && (i <=? m) then
                    group i
                    ++ GetSubstitution matched before after captures rest''
                  else if (1 <=? one) && (one <=? m) then
                    group one
                    ++ GetSubstitution matched before after captures rest'
                  else
                    c :: d
                    :: GetSubstitution matched before after captures rest'
              | _, _ =>
                  if (1 <=? one) && (one <=? m) then
                    group one
                    ++ GetSubstitution matched before after captures rest'
                  else
                    c :: d
                    :: GetSubstitution matched before after captures rest'
              end
            else
              c :: GetSubstitution matched before after captures rest
        end
  end.

(** [s.replace(c, template)] for a one-character string pattern: only the
    first occurrence is replaced. *)
Fixpoint replace_first_from (c : ascii) (template before s : jsstring)
  : jsstring :=
  match s with
  | [] => []
  | x :: r =>
      if Ascii.eqb x c then GetSubstitution [c] before r [] template ++ r
      else x :: replace_first_from c template (before ++ [x]) r
  end.

Definition replace_first (c : ascii) (template s : jsstring) : jsstring :=
  replace_first_from c template [] s.

(** The greedy capture after an opening parenthesis: the text up to the
    last closing parenthesis before a line terminator, and what follows. *)
Fixpoint last_close (r : jsstring) : option (jsstring * jsstring) :=
  match r with
  | [] => None
  | c :: r' =>
      match (if is_line_terminator c then None else last_close r') with
      | Some (inner, rest) => Some (c :: inner, rest)
      | None => if Ascii.eqb c ")" then Some ([], r') else None
      end
  end.

(** The first replacement of the string branch of [parse]: the leftmost
    parenthesised text, taken greedily, loses its parentheses and gets a
    minus sign in front (template [-$1]). *)
Fixpoint replace_paren (s : jsstring) : jsstring :=
  match s with
  | [] => []
  | c :: r =>
      match (if Ascii.eqb c "(" then last_close r else None) with
      | Some (inner, rest) => "-"%char :: inner ++ rest
      | None => c :: replace_paren r
      end
  end.

(** A decimal mark is one printable character that stands for itself both
    inside the character class [[^-\d<mark>]] and after a backslash: not a
    letter, a digit, a backslash or a closing bracket. *)
Definition plain_mark (c : ascii) : bool :=
  (32 <=? code c) && (code c <=? 126)
  && negb (is_letter c) && negb (is_digit c)
  && negb (code c =? 92) && negb (code c =? 93).

Record Mark : Type := {
  mark_char : ascii;
  mark_plain : Is_true (plain_mark mark_char)
}.

(** [s.replace(new RegExp('[^-\\d' + decimal + ']', 'g'), '')] *)
Definition strip_nonnumeric (decimal : Mark) (s : jsstring) : jsstring :=
  filter (fun c => Ascii.eqb c "-" || is_digit c
                   || Ascii.eqb c (mark_char decimal)) s.

(** [s.replace(new RegExp('\\' + decimal, 'g'), '.')] *)
Definition normalize_decimal (decimal : Mark) (s : jsstring) : jsstring :=
  map (fun c => if Ascii.eqb c (mark_char decimal) then "."%char else c) s.

(** [s.replace(/^-/, '')] *)
Definition remove_leading_minus (s : jsstring) : jsstring :=
  match s with
  | "-"%char :: r => r
  | _ => s
  end.

(** [s.split('.')] *)
Fixpoint split_dots (s : jsstring) : list jsstring :=
  match s with
  | [] => [[]]
  | c :: r =>
      if is_dot c then [] :: split_dots r
      else
        match split_dots r with
        | p :: ps => (c :: p) :: ps
        | [] => [[c]]
        end
  end.

(** The position after a run of digits is a word boundary when no word
    character follows. *)
Definition boundary_after_word (r : jsstring) : bool :=
  match r with
  | [] => true
  | c :: _ => negb (is_word c)
  end.

(** The lookahead [(?=(\d{3})+\b)] of [groupRegex]; the result is the text
    of the last repetition of the group. *)
Fixpoint lookahead_group (r : jsstring) : option jsstring :=
  match r with
  | d1 :: d2 :: d3 :: r' =>
      if is_digit d1 && is_digit d2 && is_digit d3 then
        match lookahead_group r' with
        | Some cap => Some cap
        | None =>
            if boundary_after_word r' then Some [d1; d2; d3] else None
        end
      else None
  | _ => None
  end.

(** The lookahead [(?=(\d\d)+\d\b)] of [vedicRegex]. *)
Fixpoint lookahead_vedic (r : jsstring) : option jsstring :=
  match r with
  | d1 :: d2 :: r' =>
      if is_digit d1 && is_digit d2 then
        match lookahead_vedic r' with
        | Some cap => Some cap
        | None =>
            match r' with
            | d :: r'' =>
                if is_digit d && boundary_after_word r''
                then Some [d1; d2] else None
            | [] => None
            end
        end
      else None
  | _ => None
  end.

Inductive GroupRegex : Type :=
| groupRegex     (* /(\d)(?=(\d{3})+\b)/g *)
| vedicRegex.    (* /(\d)(?=(\d\d)+\d\b)/g *)

Definition lookahead (g : GroupRegex) : jsstring -> option jsstring :=
  match g with
  | groupRegex => lookahead_group
  | vedicRegex => lookahead_vedic
  end.

(** [s.replace(groups, template)]: every digit whose lookahead succeeds is
    replaced by the expansion of the template. *)
Fixpoint replace_groups_from (g : GroupRegex) (template before s : jsstring)
  : jsstring :=
  match s with
  | [] => []
  | c :: r =>
      match (if is_digit c then lookahead g r else None) with
      | Some cap =>
          GetSubstitution [c] before r [[c]; cap] template
          ++ replace_groups_from g template (before ++ [c]) r
      | None => c :: replace_groups_from g template (before ++ [c]) r
      end
  end.

Definition replace_groups (g : GroupRegex) (template s : jsstring)
  : jsstring :=
  replace_groups_from g template [] s.

(** ** Settings *)

(** The settings object of a value: [defaults] overridden by the options,
    with [increment] and [groups] resolved by the constructor.  [precision]
    ranges over the integers. *)
Record Settings : Type := {
  symbol : jsstring;
  separator : jsstring;
  decimal : Mark;
  formatWithSymbol : bool;
  errorOnInvalid : bool;
  precision : Z;
  pattern : jsstring;
  negativePattern : jsstring;
  increment : number;
  useVedic : option bool;
  groups : GroupRegex
}.

(** The options object given to the constructor: each property may be
    absent.  A [groups] property is left out, since the constructor
    overwrites it unconditionally. *)
Record Opts : Type := {
  opt_symbol : option jsstring;
  opt_separator : option jsstring;
  opt_decimal : option Mark;
  opt_formatWithSymbol : option bool;
  opt_errorOnInvalid : option bool;
  opt_precision : option Z;
  opt_pattern : option jsstring;
  opt_negativePattern : option jsstring;
  opt_increment : option number;
  opt_useVedic : option bool
}.

Definition no_opts : Opts :=
  {| opt_symbol := None; opt_separator := None; opt_decimal := None;
     opt_formatWithSymbol := None; opt_errorOnInvalid := None;
     opt_precision := None; opt_pattern := None;
     opt_negativePattern := None; opt_increment := None;
     opt_useVedic := None |}.

Definition dot_mark : Mark := {| mark_char := "."; mark_plain := I |}.

(** The [defaults] object, as an options object. *)
Definition defaults : Opts :=
  {| opt_symbol := Some (lit "$");
     opt_separator := Some (lit ",");
     opt_decimal := Some dot_mark;
     opt_formatWithSymbol := Some false;
     opt_errorOnInvalid := Some false;
     opt_precision := Some 2;
     opt_pattern := Some (lit "!#");
     opt_negativePattern := Some (lit "-!#");
     opt_increment := None;
     opt_useVedic := None |}.

Definition override {A : Type} (a b : option A) : option A :=
  match b with
  | Some _ => b
  | None => a
  end.

(** [Object.assign({}, a, b)] *)
Definition assign (a b : Opts) : Opts :=
  {| opt_symbol := override (opt_symbol a) (opt_symbol b);
     opt_separator := override (opt_separator a) (opt_separator b);
     opt_decimal := override (opt_decimal a) (opt_decimal b);
     opt_formatWithSymbol :=
       override (opt_formatWithSymbol a) (opt_formatWithSymbol b);
     opt_errorOnInvalid :=
       override (opt_errorOnInvalid a) (opt_errorOnInvalid b);
     opt_precision := override (opt_precision a) (opt_precision b);
     opt_pattern := override (opt_pattern a) (opt_pattern b);
     opt_negativePattern :=
       override (opt_negativePattern a) (opt_negativePattern b);
     opt_increment := override (opt_increment a) (opt_increment b);
     opt_useVedic := override (opt_useVedic a) (opt_useVedic b) |}.

(** A settings object passed where options are expected. *)
Definition opts_of_settings (s : Settings) : Opts :=
  {| opt_symbol := Some (symbol s);
     opt_separator := Some (separator s);
     opt_decimal := Some (decimal s);
     opt_formatWithSymbol := Some (formatWithSymbol s);
     opt_errorOnInvalid := Some (errorOnInvalid s);
     opt_precision := Some (precision s);
     opt_pattern := Some (pattern s);
     opt_negativePattern := Some (negativePattern s);
     opt_increment := Some (increment s);
     opt_useVedic := useVedic s |}.

Definition round (v : number) : number := Math_round v.
Definition pow (p : Z) : number := Math_pow10 p.
Definition rounding (value increment : number) : number :=
  nmul (round (ndiv value increment)) increment.

Definition get {A : Type} (o : option A) (d : A) : A :=
  match o with
  | Some a => a
  | None => d
  end.

(** Lines 158 to 174 of the constructor: merge the options over the
    defaults, default the increment to [1 / 10^precision] when it is absent
    or falsy, and choose the grouping expression. *)
Definition resolve (o : Opts) : Settings :=
  let m := assign defaults o in
  let p := get (opt_precision m) 2 in
  {| symbol := get (opt_symbol m) [];
     separator := get (opt_separator m) [];
     decimal := get (opt_decimal m) dot_mark;
     formatWithSymbol := get (opt_formatWithSymbol m) false;
     errorOnInvalid := get (opt_errorOnInvalid m) false;
     precision := p;
     pattern := get (opt_pattern m) [];
     negativePattern := get (opt_negativePattern m) [];
     increment :=
       match opt_increment m with
       | Some i => nor i (ndiv (Fin 1) (pow p))
       | None => ndiv (Fin 1) (pow p)
       end;
     useVedic := opt_useVedic m;
     groups :=
       match opt_useVedic m with
       | Some true => vedicRegex
       | _ => groupRegex
       end |}.

(** ** Currency values *)

Record Currency : Type := {
  opts : Opts;
  intValue : number;
  value : number;
  _settings : Settings;
  _precision : number
}.

(** The values the engine is given: a number, a string, a currency value,
    or something else ([undefined], [null], a boolean). *)
Inductive JsValue : Type :=
| VNumber (n : number)
| VString (s : jsstring)
| VCurrency (c : Currency)
| VUndefined
| VNull
| VBoolean (b : bool).

(** What [this] is inside [parse], a function that is always called
    without a receiver: [undefined] in strict code, where reading
    [this.value] raises a TypeError, or the global object, whose [value]
    property (as a number; [NaN] when it has none) is what is read. *)
Inductive ThisBinding : Type :=
| ThisUndefined
| ThisGlobal (value_property : number).

(** [toString()], lines 285 to 288. *)
Definition toString (c : Currency) : result jsstring :=
  toFixed (precision (_settings c))
    (rounding (ndiv (intValue c) (_precision c)) (increment (_settings c))).


Section Engine.

Variable this : ThisBinding.

(** Lines 301 to 322 of [parse]: the scaled value [v] before the final
    step. *)
Definition parse_scaled (value : JsValue) (opts : Settings) : result number :=
  let precision := pow (precision opts) in
  match value with
  | VNumber n => Ok (nmul n precision)
  | VCurrency _ =>
      match this with
      | ThisUndefined => Throw TypeError
      | ThisGlobal g => Ok (nmul g precision)
      end
  | VString s =>
      let v :=
        nmul (Number (normalize_decimal (decimal opts)
                        (strip_nonnumeric (decimal opts) (replace_paren s))))
             precision in
      Ok (nor v (Fin 0))
  | _ => if errorOnInvalid opts then Throw InvalidInput else Ok (Fin 0)
  end.

(** [parse(value, opts, useRounding)], lines 300 to 328: the scaled value
    goes through [toFixed(4)] and back to a number, and is then rounded
    when [useRounding] is set. *)
Definition parse (value : JsValue) (opts : Settings) (useRounding : bool)
  : result number :=
  v <- parse_scaled value opts ;;
  s <- toFixed 4 v ;;
  let v := Number s in
  Ok (if useRounding then round v else v).

(** [new Currency(value, opts)], lines 149 to 179.  A currency value given
    as input contributes its display value.  [parse] reads only [decimal],
    [errorOnInvalid] and [precision], which the resolution of [increment]
    and [groups] leaves alone, so it is given the resolved settings. *)
Definition Currency_new (input : JsValue) (o : Opts) : result Currency :=
  let raw :=
    match input with
    | VCurrency c => VNumber (value c)
    | _ => input
    end in
  let settings := resolve o in
  let precision := pow (precision settings) in
  v <- parse raw settings true ;;
  Ok {| opts := o;
        intValue := v;
        value := ndiv v precision;
        _settings := settings;
        _precision := precision |}.

(** [add], [subtract], [multiply] and [divide], lines 186 to 219.
    [multiply] uses its operand as a number without parsing it, and
    [divide] parses with [useRounding] false and does not divide by the
    scale. *)
Definition add (c : Currency) (number : JsValue) : result Currency :=
  p <- parse number (_settings c) true ;;
  Currency_new (VNumber (ndiv (nadd (intValue c) p) (_precision c)))
    (opts_of_settings (_settings c)).

Definition subtract (c : Currency) (number : JsValue) : result Currency :=
  p <- parse number (_settings c) true ;;
  Currency_new (VNumber (ndiv (nsub (intValue c) p) (_precision c)))
    (opts_of_settings (_settings c)).


Definition divide (c : Currency) (number : JsValue) : result Currency :=
  p <- parse number (_settings c) false ;;
  Currency_new (VNumber (ndiv (intValue c) p))
    (opts_of_settings (_settings c)).

(** The loop of [distribute].  It runs until [count] reaches zero, which a
    negative count never does: [fuel] bounds the number of tests of the loop
    condition and [None] means that it was used up. *)
Fixpoint distribute_loop (fuel : nat) (c : Currency) (split : number)
    (count : Z) (pennies : number) (distribution : list Currency)
  : option (result (list Currency)) :=
  match fuel with
  | O => None
  | S fuel' =>
      if count =? 0 then Some (Ok distribution)
      else
        let item :=
          item <- Currency_new (VNumber (ndiv split (_precision c)))
                    (opts_of_settings (_settings c)) ;;
          if ngt pennies (Fin 0) then
            if nge (intValue c) (Fin 0)
            then add item (VNumber (ndiv (Fin 1) (_precision c)))
            else subtract item (VNumber (ndiv (Fin 1) (_precision c)))
          else Ok item in
        match item with
        | Throw e => Some (Throw e)
        | Ok item =>
            distribute_loop fuel' c split (count - 1)
              (nsub pennies (Fin 1)) (distribution ++ [item])
        end
  end.

(** [distribute(count)], lines 227 to 243. *)
Definition distribute (fuel : nat) (c : Currency) (count : Z)
  : option (result (list Currency)) :=
  let split :=
    (if nge (intValue c) (Fin 0) then Math_floor else Math_ceil)
      (ndiv (intValue c) (of_Z count)) in
  let pennies := Math_abs (nsub (intValue c) (nmul split (of_Z count))) in
  distribute_loop fuel c split count pennies [].

End Engine.

(** [dollars()] and [cents()], lines 249 to 260. *)
Definition dollars (c : Currency) : number :=
  BitwiseNot (BitwiseNot (value c)).

Definition cents (c : Currency) : number :=
  BitwiseNot (BitwiseNot (nrem (intValue c) (_precision c))).

(** [format(useSymbol)], lines 267 to 279; [None] is a call without the
    argument.  The receiver is converted to a string through [toString]. *)
Definition format (c : Currency) (useSymbol : option bool) : result jsstring :=
  let s := _settings c in
  text <- toString c ;;
  let values := split_dots (remove_leading_minus text) in
  let dollars := nth 0 values [] in
  let cents := nth_error values 1 in
  let useSymbol := get useSymbol (formatWithSymbol s) in
  let body :=
    replace_groups (groups s) (lit "$1" ++ separator s) dollars
    ++ match cents with
       | Some ((_ :: _) as cs) => mark_char (decimal s) :: cs
       | _ => []
       end in
  Ok (replace_first "#" body
        (replace_first "!" (if useSymbol then symbol s else [])
           (if nge (value c) (Fin 0) then pattern s else negativePattern s))).

(** [toJSON()], lines 294 to 296. *)
Definition toJSON (c : Currency) : number := value c.

(** * The event emitter, lines 20 to 88

    What the emitter is given from outside: the function objects registered
    as handlers, compared by identity as [indexOf] does; the other values an
    argument array holds; the readings of the clock; the values a handler
    throws; and the part of the program state, beside the emitter and its
    arrays, that handlers read and write. *)
Class Host : Type := {
  Handler : Type;
  Handler_eq_dec : forall x y : Handler, {x = y} + {x <> y};
  Arg : Type;
  Date : Type;
  Exn : Type;
  World : Type
}.

(** An object made by [new EventFunc(type)], lines 28 to 31. *)
Record EventFunc `{Host} : Type := {
  type : jsstring;
  timeStamp : Date
}.

(** The elements of the array given to [trigger]. *)
Inductive Element `{Host} : Type :=
| AnEvent (e : EventFunc)
| AnArg (a : Arg).

(** Arrays are objects with identity: they live in a heap and are referred
    to by address. *)
Definition Addr : Type := nat.

Definition fetch {A : Type} (heap : list (list A)) (a : Addr) : list A :=
  nth a heap [].

Fixpoint store {A : Type} (heap : list (list A)) (a : Addr) (l : list A)
  : list (list A) :=
  match heap, a with
  | [], _ => []
  | _ :: r, O => l :: r
  | x :: r, S a' => x :: store r a' l
  end.

(** One emitter made by [Emitter()], with the arrays it refers to: the own
    properties of [this.events], each holding the address of an array of
    handlers; the prototype of [this.events], which is [Object.prototype]
    ([None]) until an assignment to the key [__proto__] replaces it by an
    array; the arrays of handlers; the arrays given to [trigger] as
    arguments; and the rest of the world. *)
Record Machine `{Host} : Type := {
  events : list (jsstring * Addr);
  events_proto : option Addr;
  handlerArrays : list (list Handler);
  argArrays : list (list Element);
  world : World
}.

Definition with_events `{Host} (m : Machine) (e : list (jsstring * Addr))
  : Machine :=
  {| events := e; events_proto := events_proto m;
     handlerArrays := handlerArrays m; argArrays := argArrays m;
     world := world m |}.

Definition with_events_proto `{Host} (m : Machine) (p : option Addr)
  : Machine :=
  {| events := events m; events_proto := p;
     handlerArrays := handlerArrays m; argArrays := argArrays m;
     world := world m |}.

Definition with_handlerArrays `{Host} (m : Machine)
    (h : list (list Handler)) : Machine :=
  {| events := events m; events_proto := events_proto m;
     handlerArrays := h; argArrays := argArrays m; world := world m |}.

Definition with_argArrays `{Host} (m : Machine) (a : list (list Element))
  : Machine :=
  {| events := events m; events_proto := events_proto m;
     handlerArrays := handlerArrays m; argArrays := a; world := world m |}.

Definition with_world `{Host} (m : Machine) (w : World) : Machine :=
  {| events := events m; events_proto := events_proto m;
     handlerArrays := handlerArrays m; argArrays := argArrays m;
     world := w |}.

(** How a call ends: normally, or with a thrown value, which is a TypeError
    of the engine (calling something that is not a function) or whatever a
    handler threw. *)
Inductive Thrown `{Host} : Type :=
| NotAFunction
| Raised (x : Exn).

Inductive completion `{Host} (A : Type) : Type :=
| Normal (a : A)
| Abrupt (t : Thrown).

Arguments Normal {_ A} a.
Arguments Abrupt {_ A} t.

Definition and_then `{Host} {A B : Type} (c : completion A)
    (k : A -> completion B) : completion B :=
  match c with
  | Normal a => k a
  | Abrupt t => Abrupt t
  end.

Notation "x <~ c ;; k" := (and_then c (fun x => k))
  (at level 61, c at next level, right associativity).

(** What a method returns: [this], or nothing. *)
Inductive Returned : Type :=
| ReturnsThis
| ReturnsUndefined.

(** What calling a handler does to the machine.  A handler may call the
    emitter again, change any array, or throw. *)
Class Behaviour `{Host} : Type := {
  apply : Handler -> list Element -> Machine -> completion Machine
}.

(** Own properties of [this.events]. *)
Fixpoint get_own (key : jsstring) (o : list (jsstring * Addr))
  : option Addr :=
  match o with
  | [] => None
  | (k, a) :: r => if string_eqb k key then Some a else get_own key r
  end.

Fixpoint set_own (key : jsstring) (a : Addr) (o : list (jsstring * Addr))
  : list (jsstring * Addr) :=
  match o with
  | [] => [(key, a)]
  | (k, x) :: r =>
      if string_eqb k key then (k, a) :: r else (k, x) :: set_own key a r
  end.

Definition delete_own (key : jsstring) (o : list (jsstring * Addr))
  : list (jsstring * Addr) :=
  filter (fun p => negb (string_eqb (fst p) key)) o.

(** [Emitter()], lines 22 to 26, in a world [w] without arrays. *)
Definition Emitter `{Host} (w : World) : Machine :=
  {| events := []; events_proto := None; handlerArrays := [];
     argArrays := []; world := w |}.

(** [this.events.hasOwnProperty(key)], with the value of the property when
    [key] is an own property.  The method is looked up on [this.events]
    first: an own property of that name holds an array, and calling an array
    is a TypeError.  Otherwise the lookup reaches [Object.prototype], also
    through an array that has become the prototype. *)
Definition hasOwnProperty `{Host} (m : Machine) (key : jsstring)
  : completion (option Addr) :=
  match get_own (lit "hasOwnProperty") (events m) with
  | Some _ => Abrupt NotAFunction
  | None => Normal (get_own key (events m))
  end.

(** [this.events[key] = array]: the key [__proto__] is an accessor of
    [Object.prototype], whose setter makes the array the prototype; every
    other key becomes an own property. *)
Definition put `{Host} (m : Machine) (key : jsstring) (a : Addr) : Machine :=
  if string_eqb key (lit "__proto__") then with_events_proto m (Some a)
  else with_events m (set_own key a (events m)).

(** [on(type, handler)], lines 33 to 40. *)
Definition on `{Host} (type : jsstring) (handler : Handler) (m : Machine)
  : completion (Returned * Machine) :=
  own <~ hasOwnProperty m type ;;
  match own with
  | Some a =>
      Normal (ReturnsThis,
              with_handlerArrays m
                (store (handlerArrays m) a
                   (fetch (handlerArrays m) a ++ [handler])))
  | None =>
      let a := List.length (handlerArrays m) in
      Normal (ReturnsThis,
              put (with_handlerArrays m (handlerArrays m ++ [[handler]]))
                type a)
  end.

(** [indexOf] and [splice(i, 1)] on an array of handlers. *)
Fixpoint indexOf `{Host} (l : list Handler) (h : Handler) : option nat :=
  match l with
  | [] => None
  | x :: r =>
      if Handler_eq_dec x h then Some O else option_map S (indexOf r h)
  end.

Fixpoint splice_one {A : Type} (i : nat) (l : list A) : list A :=
  match l, i with
  | [], _ => []
  | _ :: r, O => r
  | x :: r, S i' => x :: splice_one i' r
  end.

(** [_offByHandler(type, handler)], lines 69 to 76. *)
Definition _offByHandler `{Host} (type : jsstring) (handler : Handler)
    (m : Machine) : completion (Returned * Machine) :=
  own <~ hasOwnProperty m type ;;
  match own with
  | None => Normal (ReturnsUndefined, m)
  | Some a =>
      match indexOf (fetch (handlerArrays m) a) handler with
      | Some i =>
          Normal (ReturnsThis,
                  with_handlerArrays m
                    (store (handlerArrays m) a
                       (splice_one i (fetch (handlerArrays m) a))))
      | None => Normal (ReturnsThis, m)
      end
  end.

(** [_offByType(type)], lines 78 to 83. *)
Definition _offByType `{Host} (type : jsstring) (m : Machine)
  : completion (Returned * Machine) :=
  own <~ hasOwnProperty m type ;;
  match own with
  | Some _ => Normal (ReturnsThis, with_events m (delete_own type (events m)))
  | None => Normal (ReturnsThis, m)
  end.

(** [_offAll()], lines 85 to 88: [this.events] becomes a new object. *)
Definition _offAll `{Host} (m : Machine) : completion (Returned * Machine) :=
  Normal (ReturnsThis, with_events_proto (with_events m []) None).

(** The three ways [off] is called: without arguments, with a type, with a
    type and a handler. *)
Inductive OffCall `{Host} : Type :=
| OffAll
| OffType (type : jsstring)
| OffHandler (type : jsstring) (handler : Handler).

(** [off(type, handler)], lines 42 to 50. *)
Definition off `{Host} (c : OffCall) (m : Machine)
  : completion (Returned * Machine) :=
  match c with
  | OffAll => _offAll m
  | OffType type => _offByType type m
  | OffHandler type handler => _offByHandler type handler m
  end.

(** [handlers.forEach(handler => handler.apply(null, args))]: the length of
    the array is read once, [n] indices are left to visit from [k] on; an
    index the array no longer has is skipped, and the arguments are read
    from the argument array at each call. *)
Fixpoint forEach `{Behaviour} (n k : nat) (handlers args : Addr)
    (m : Machine) : completion Machine :=
  match n with
  | O => Normal m
  | S n' =>
      match nth_error (fetch (handlerArrays m) handlers) k with
      | Some handler =>
          m' <~ apply handler (fetch (argArrays m) args) m ;;
          forEach n' (S k) handlers args m'
      | None => forEach n' (S k) handlers args m
      end
  end.

(** [_dispatch(event, args)], lines 59 to 67.  [args] is the address of the
    caller's array, or [None] when the argument is left out; the event is
    put in front of that very array. *)
Definition _dispatch `{Behaviour} (event : EventFunc) (args : option Addr)
    (m : Machine) : completion (Returned * Machine) :=
  own <~ hasOwnProperty m (type event) ;;
  match own with
  | None => Normal (ReturnsUndefined, m)
  | Some handlers =>
      let '(args, m) :=
        match args with
        | Some a => (a, m)
        | None => (List.length (argArrays m),
                   with_argArrays m (argArrays m ++ [[]]))
        end in
      let m :=
        with_argArrays m
          (store (argArrays m) args
             (AnEvent event :: fetch (argArrays m) args)) in
      m <~ forEach (List.length (fetch (handlerArrays m) handlers)) 0
             handlers args m ;;
      Normal (ReturnsThis, m)
  end.

(** The first argument of [trigger]: the name of an event, or an object
    made by [EventFunc]. *)
Inductive Trigger `{Host} : Type :=
| ByName (name : jsstring)
| ByEvent (event : EventFunc).

(** [trigger(event, args)], lines 52 to 57, called when the clock shows
    [now]. *)
Definition trigger `{Behaviour} (now : Date) (event : Trigger)
    (args : option Addr) (m : Machine) : completion (Returned * Machine) :=
  let event :=
    match event with
    | ByEvent e => e
    | ByName name => {| type := name; timeStamp := now |}
    end in
  _dispatch event args m.

(** * Definitions used by the statements *)

(** The normal form of a digit string: no leading zeros, but at least one
    digit. *)
Definition unlead (s : jsstring) : jsstring :=
  match strip_zeros s with
  | [] => ["0"%char]
  | t => t
  end.

(** Characters of a plain decimal numeral. *)
Definition numeral_char (c : ascii) : bool :=
  is_digit c || is_dot c || Ascii.eqb c "-".

(** The text after the digits of the integer part: nothing, or a dot and
    the fraction digits. *)
Definition fraction_text (frac : option jsstring) : jsstring :=
  match frac with
  | None => []
  | Some fp => "."%char :: fp
  end.

Definition fraction_digits (frac : option jsstring) : jsstring :=
  match frac with
  | None => []
  | Some fp => fp
  end.

Definition sign_text (neg : bool) : jsstring :=
  if neg then ["-"%char] else [].

(** The number written by a sign, integer digits and fraction digits. *)
Definition numeral_value (neg : bool) (ip fp : jsstring) : Q :=
  let scale := 10 ^ Z.of_nat (List.length fp) in
  let m := (inject_Z (digits_value ip * scale + digits_value fp)
            / inject_Z scale)%Q in
  (if neg then - m else m)%Q.

(** [q] rounded to [f] fractional digits, a tie going away from zero. *)
Definition round_digits (f : Z) (q : Q) : Q :=
  let m := (inject_Z (Qfloor (Qabs q * inject_Z (10 ^ f) + (1 # 2)))
            / inject_Z (10 ^ f))%Q in
  if Qsgn q <? 0 then (- m)%Q else m.

(** What [toFixed(f)] followed by a conversion back to a number yields. *)
Definition fix_digits (f : Z) (x : number) : number :=
  match x with
  | Fin q => fin (round_digits f q)
  | _ => x
  end.

(** An amount is either an integer or not finite. *)
Definition integral_or_nonfinite (x : number) : Prop :=
  match x with
  | Fin q => exists k, q = inject_Z k
  | _ => True
  end.

(** The value the constructor builds for the amount [x] under the settings
    [s]. *)
Definition mk (s : Settings) (x : number) : Currency :=
  {| opts := opts_of_settings s;
     intValue := x;
     value := ndiv x (pow (precision s));
     _settings := s;
     _precision := pow (precision s) |}.






(** Only [errorOnInvalid] given. *)
Definition with_errorOnInvalid (b : bool) : Opts :=
  {| opt_symbol := None; opt_separator := None; opt_decimal := None;
     opt_formatWithSymbol := None; opt_errorOnInvalid := Some b;
     opt_precision := None; opt_pattern := None;
     opt_negativePattern := None; opt_increment := None;
     opt_useVedic := None |}.

(** Only [precision] given. *)
Definition with_precision (p : Z) : Opts :=
  {| opt_symbol := None; opt_separator := None; opt_decimal := None;
     opt_formatWithSymbol := None; opt_errorOnInvalid := None;
     opt_precision := Some p; opt_pattern := None;
     opt_negativePattern := None; opt_increment := None;
     opt_useVedic := None |}.


(** The final step of [parse] as the specification words it: truncation to
    four fraction digits, then rounding half away from zero. *)
Definition truncate_digits (f : Z) (q : Q) : Q :=
  (inject_Z (Qtrunc (q * inject_Z (10 ^ f))) / inject_Z (10 ^ f))%Q.

Definition round_half_away (q : Q) : Z :=
  if Qsgn q <? 0 then - Qfloor (Qabs q + (1 # 2)) else Qfloor (q + (1 # 2)).

Definition claimed_final (x : number) (useRounding : bool) : number :=
  match x with
  | Fin q =>
      if useRounding then of_Z (round_half_away (truncate_digits 4 q))
      else fin (truncate_digits 4 q)
  | _ => x
  end.

(** An operand that is a number or a string. *)
Definition plain_operand (v : JsValue) : bool :=
  match v with
  | VNumber _ | VString _ => true
  | _ => false
  end.


(** Only [useVedic] given. *)
Definition with_useVedic (b : bool) : Opts :=
  {| opt_symbol := None; opt_separator := None; opt_decimal := None;
     opt_formatWithSymbol := None; opt_errorOnInvalid := None;
     opt_precision := None; opt_pattern := None;
     opt_negativePattern := None; opt_increment := None;
     opt_useVedic := Some b |}.

(** The value [new Currency(n)] builds under the default settings for a
    whole number [n] of units. *)
Definition units (n : Z) : Currency :=
  {| opts := no_opts;
     intValue := of_Z (n * 100);
     value := of_Z n;
     _settings := resolve no_opts;
     _precision := of_Z 100 |}.




(** A character that is neither a parenthesis nor a line terminator. *)
Definition inner_char (c : ascii) : bool :=
  negb (Ascii.eqb c "(") && negb (Ascii.eqb c ")")
  && negb (is_line_terminator c).

(** The digit string [s] with [sep] after every digit whose number of
    digits to the right satisfies [rule]. *)
Fixpoint grouped (rule : nat -> bool) (sep s : jsstring) : jsstring :=
  match s with
  | [] => []
  | c :: r =>
      c :: (if rule (List.length r) then sep else []) ++ grouped rule sep r
  end.

(** Groups of three from the right. *)
Definition standard_rule (n : nat) : bool :=
  negb (Nat.eqb n 0) && Nat.eqb (n mod 3) 0.

(** A group of three on the right and groups of two before it. *)
Definition vedic_rule (n : nat) : bool :=
  Nat.leb 3 n && Nat.odd n.

(** Whether an optional value is there. *)
Definition is_some {A : Type} (o : option A) : bool :=
  match o with
  | Some _ => true
  | None => false
  end.

(** No dollar sign in the string. *)
Definition no_dollar (s : jsstring) : bool :=
  forallb (fun c => negb (Ascii.eqb c "$")) s.

(** The rule of each of the two grouping expressions. *)
Definition group_rule (g : GroupRegex) : nat -> bool :=
  match g with
  | groupRegex => standard_rule
  | vedicRegex => vedic_rule
  end.




(** The handlers registered for a type, in the order of the array. *)
Definition handlers_of `{Host} (m : Machine) (type : jsstring)
  : option (list Handler) :=
  option_map (fetch (handlerArrays m)) (get_own type (events m)).

(** An own property named [hasOwnProperty] hides the method. *)
Definition shadowed `{Host} (m : Machine) : bool :=
  is_some (get_own (lit "hasOwnProperty") (events m)).

(** No two types share an array, every array of a type is in the heap, and
    [__proto__] is not an own property. *)
Definition well_formed `{Host} (m : Machine) : Prop :=
  NoDup (map snd (events m))
  /\ Forall (fun a => (a < List.length (handlerArrays m))%nat)
       (map snd (events m))
  /\ get_own (lit "__proto__") (events m) = None.

(** A call of [on] or [off], and a sequence of such calls. *)
Inductive Call `{Host} : Type :=
| CallOn (type : jsstring) (handler : Handler)
| CallOff (c : OffCall).

Definition call `{Host} (c : Call) (m : Machine)
  : completion (Returned * Machine) :=
  match c with
  | CallOn type handler => on type handler m
  | CallOff c => off c m
  end.

Fixpoint calls `{Host} (cs : list Call) (m : Machine) : completion Machine :=
  match cs with
  | [] => Normal m
  | c :: r => x <~ call c m ;; calls r (snd x)
  end.

(** A handler that only acts on the world: it leaves the emitter and every
    array as they are, and does not throw. *)
Definition passive `{Behaviour}
    (act : Handler -> list Element -> World -> World) (h : Handler) : Prop :=
  forall args m, apply h args m = Normal (with_world m (act h args (world m))).

(** The event [trigger] makes for a name. *)
Definition named_event `{Host} (t : jsstring) (now : Date) : Element :=
  AnEvent {| type := t; timeStamp := now |}.

(** The machine as [_dispatch] leaves it before the handlers run: the event
    is in front of the argument array. *)
Definition with_event `{Host} (event : EventFunc) (args : option Addr)
    (m : Machine) : Addr * Machine :=
  match args with
  | Some a =>
      (a, with_argArrays m
            (store (argArrays m) a (AnEvent event :: fetch (argArrays m) a)))
  | None =>
      (List.length (argArrays m),
       with_argArrays m (argArrays m ++ [[AnEvent event]]))
  end.

(** A handler that takes itself off the type it is registered for. *)
Definition removes_itself `{B : Behaviour} (t : jsstring) (h : Handler)
  : Prop :=
  forall args m,
    apply h args m = (x <~ off (OffHandler t h) m ;; Normal (snd x)).

(** A handler that registers another handler for a type. *)
Definition registers `{B : Behaviour} (t : jsstring) (h h' : Handler)
  : Prop :=
  forall args m, apply h args m = (x <~ on t h' m ;; Normal (snd x)).

(** A host for the instances of the emitter's theorems: handlers are
    numbers, and the world is the list of the handlers that logged their
    call. *)
Definition sample_host : Host :=
  {| Handler := nat; Handler_eq_dec := Nat.eq_dec; Arg := unit; Date := nat;
     Exn := unit; World := list nat |}.

(** Handler 1 takes itself off the type [t], handler 5 registers handler 7
    for [t], and every other handler logs its number. *)
Definition sample_behaviour : @Behaviour sample_host :=
  @Build_Behaviour sample_host
    (fun (h : @Handler sample_host) (_ : list (@Element sample_host))
         (m : @Machine sample_host) =>
       if Nat.eqb h 1 then
         x <~ off (@OffHandler sample_host (lit "t") h) m ;; Normal (snd x)
       else if Nat.eqb h 5 then
         x <~ @on sample_host (lit "t") 7%nat m ;; Normal (snd x)
       else Normal (with_world m (world m ++ [h]))).

(** What a logging handler does to the world. *)
Definition sample_log (h : nat) (_ : list (@Element sample_host))
    (w : list nat) : list nat :=
  w ++ [h].

(** An emitter with the handlers [l] registered for the type [t], and one
    array of arguments. *)
Definition sample_machine (l : list nat) : @Machine sample_host :=
  @Build_Machine sample_host [(lit "t", 0%nat)] None [l]
    [[@AnArg sample_host tt]] [].

(** The emitter after [on] for the types [a] and [b] and [off] for the
    handler of [a]. *)
Definition sample_registrations : @Machine sample_host :=
  @Build_Machine sample_host [(lit "a", 0%nat); (lit "b", 1%nat)] None
    [[]; [2%nat]] [] [].

(** * Properties *)

(** ** Numbers *)


Lemma Qred_inject_Z (z : Z) : Qred (inject_Z z) = inject_Z z.
Proof.
  pose proof (Qred_correct (inject_Z z)) as H.
  pose proof (gcd_Qred (inject_Z z)) as G.
  destruct (Qred (inject_Z z)) as [a b].
  unfold Qeq, inject_Z in *; cbn [Qnum Qden] in *.
  rewrite Z.mul_1_r in H. subst a.
  rewrite Z.gcd_comm, (Z.mul_comm z), Z.gcd_mul_diag_l in G by lia.
  unfold inject_Z. f_equal; lia.
Qed.

Lemma fin_eq (a b : Q) : (a == b)%Q -> fin a = fin b.
Proof. intros H. unfold fin. f_equal. now apply Qred_complete. Qed.

Lemma fin_of_Z (q : Q) (z : Z) : (q == inject_Z z)%Q -> fin q = of_Z z.
Proof.
  intros H. unfold fin, of_Z. f_equal.
  rewrite (Qred_complete _ _ H). apply Qred_inject_Z.
Qed.

Lemma Qsgn_neg (q : Q) : (Qsgn q <? 0) = true <-> (q < 0)%Q.
Proof.
  unfold Qsgn, Qlt. destruct q as [n d]; cbn [Qnum Qden].
  rewrite Z.ltb_lt. lia.
Qed.

Lemma Qsgn_zero (q : Q) : (Qsgn q =? 0) = true <-> (q == 0)%Q.
Proof.
  unfold Qsgn, Qeq. destruct q as [n d]; cbn [Qnum Qden].
  rewrite Z.eqb_eq. lia.
Qed.

Lemma Qsgn_pos_ltb (q : Q) : (0 < q)%Q -> (Qsgn q <? 0) = false /\ (Qsgn q =? 0) = false /\ Qsgn q = 1.
Proof.
  unfold Qsgn, Qlt. destruct q as [n d]; cbn [Qnum Qden]. intros H.
  repeat split; lia.
Qed.

Lemma Qsgn_comp (a b : Q) : (a == b)%Q -> Qsgn a = Qsgn b.
Proof.
  unfold Qsgn, Qeq. destruct a as [n d], b as [n' d']; cbn [Qnum Qden].
  intros H. nia.
Qed.

Lemma pow_pos (p : Z) : exists P, pow p = Fin P /\ (0 < P)%Q /\ (P == Qpower (10 # 1) p)%Q.
Proof.
  exists (Qred (Qpower (10 # 1) p)). split; [reflexivity|].
  split.
  - rewrite Qred_correct. apply Qpower_0_lt. reflexivity.
  - apply Qred_correct.
Qed.

Lemma inject_Z_nonzero (z : Z) : z <> 0 -> ~ (inject_Z z == 0)%Q.
Proof.
  intros H. change 0%Q with (inject_Z 0). rewrite inject_Z_injective. exact H.
Qed.



(** ** Digit strings *)


Ltac each_char c := destruct c as [[] [] [] [] [] [] [] []].

Lemma digit_char_spec (d : Z) :
  0 <= d < 10 -> is_digit (digit_char d) = true /\ digit_value (digit_char d) = d.
Proof.
  intros H.
  assert (d = 0 \/ d = 1 \/ d = 2 \/ d = 3 \/ d = 4 \/ d = 5 \/ d = 6
          \/ d = 7 \/ d = 8 \/ d = 9) as E by lia.
  repeat (destruct E as [-> | E]; [split; reflexivity|]).
  subst; split; reflexivity.
Qed.

Lemma is_digit_spec (c : ascii) :
  is_digit c = true ->
  0 <= digit_value c < 10 /\ digit_char (digit_value c) = c.
Proof.
  each_char c; vm_compute; intros H; try discriminate H;
    (split; [split; [discriminate | reflexivity] | reflexivity]).
Qed.

Lemma digits_fold (s : jsstring) (acc : Z) :
  fold_left (fun a c => 10 * a + digit_value c) s acc
  = acc * 10 ^ Z.of_nat (List.length s) + digits_value s.
Proof.
  unfold digits_value. revert acc.
  induction s as [|c s IH]; intros acc.
  - cbn. lia.
  - cbn [fold_left List.length]. rewrite IH, (IH (10 * 0 + _)).
    rewrite Nat2Z.inj_succ, Z.pow_succ_r by lia. ring.
Qed.

Lemma digits_value_cons (c : ascii) (s : jsstring) :
  digits_value (c :: s)
  = digit_value c * 10 ^ Z.of_nat (List.length s) + digits_value s.
Proof.
  unfold digits_value at 1. cbn [fold_left]. rewrite digits_fold. ring.
Qed.

Lemma digits_value_app (s t : jsstring) :
  digits_value (s ++ t)
  = digits_value s * 10 ^ Z.of_nat (List.length t) + digits_value t.
Proof.
  unfold digits_value at 1. rewrite fold_left_app.
  fold (digits_value s). apply digits_fold.
Qed.


Lemma length_fixed_digits (w : nat) (n : Z) :
  List.length (fixed_digits w n) = w.
Proof.
  revert n. induction w as [|w IH]; intros n; cbn [fixed_digits].
  - reflexivity.
  - rewrite length_app, IH. cbn. lia.
Qed.

Lemma all_digits_app (s t : jsstring) :
  all_digits (s ++ t) = all_digits s && all_digits t.
Proof. apply forallb_app. Qed.

Lemma all_digits_fixed (w : nat) (n : Z) :
  all_digits (fixed_digits w n) = true.
Proof.
  revert n. induction w as [|w IH]; intros n; cbn [fixed_digits].
  - reflexivity.
  - rewrite all_digits_app, IH. cbn.
    destruct (digit_char_spec (n mod 10)) as [-> _]; [|reflexivity].
    apply Z.mod_pos_bound. lia.
Qed.

Lemma digits_value_fixed (w : nat) (n : Z) :
  digits_value (fixed_digits w n) = n mod 10 ^ Z.of_nat w.
Proof.
  revert n. induction w as [|w IH]; intros n; cbn [fixed_digits].
  - cbn. now rewrite Z.mod_1_r.
  - rewrite digits_value_app, IH. cbn [List.length].
    change (digits_value [digit_char (n mod 10)])
      with (10 * 0 + digit_value (digit_char (n mod 10))).
    destruct (digit_char_spec (n mod 10)) as [_ ->];
      [apply Z.mod_pos_bound; lia|].
    change (10 ^ Z.of_nat 1) with 10.
    rewrite Nat2Z.inj_succ, Z.pow_succ_r by lia.
    rewrite (Z.rem_mul_r n 10 (10 ^ Z.of_nat w)) by lia.
    ring.
Qed.






Lemma strip_zeros_value (s : jsstring) :
  digits_value (strip_zeros s) = digits_value s.
Proof.
  induction s as [|c s IH]; [reflexivity|].
  cbn [strip_zeros]. destruct (Ascii.eqb_spec c "0") as [->|]; [|reflexivity].
  rewrite IH, digits_value_cons. change (digit_value "0") with 0. lia.
Qed.

Lemma strip_zeros_digits (s : jsstring) :
  all_digits s = true -> all_digits (strip_zeros s) = true.
Proof.
  induction s as [|c s IH]; [reflexivity|]. intros H.
  cbn [strip_zeros]. destruct (Ascii.eqb c "0"); [|exact H].
  apply IH. cbn in H. now apply andb_true_iff in H as [_ H].
Qed.

Lemma digits_of_unlead (n : Z) :
  digits_of n = unlead (fixed_digits (S (Z.to_nat (Z.log2 n))) n).
Proof. reflexivity. Qed.

Lemma log2_width (n : Z) : 0 <= n -> n < 10 ^ Z.of_nat (S (Z.to_nat (Z.log2 n))).
Proof.
  intros H. rewrite Nat2Z.inj_succ, Z2Nat.id by apply Z.log2_nonneg.
  destruct (Z.eq_dec n 0) as [->|Hn]; [reflexivity|].
  destruct (Z.log2_spec n) as [_ Hlt]; [lia|].
  eapply Z.lt_le_trans; [exact Hlt|].
  apply Z.pow_le_mono_l. pose proof (Z.log2_nonneg n). lia.
Qed.



Lemma unlead_value (s : jsstring) : digits_value (unlead s) = digits_value s.
Proof.
  unfold unlead. rewrite <- (strip_zeros_value s).
  destruct (strip_zeros s); reflexivity.
Qed.

Lemma unlead_digits (s : jsstring) :
  all_digits s = true -> all_digits (unlead s) = true.
Proof.
  intros H. unfold unlead. pose proof (strip_zeros_digits s H).
  destruct (strip_zeros s); [reflexivity|assumption].
Qed.

Lemma unlead_nonempty (s : jsstring) : nonempty (unlead s) = true.
Proof. unfold unlead. destruct (strip_zeros s); reflexivity. Qed.

Lemma digits_of_spec (n : Z) :
  0 <= n ->
  digits_value (digits_of n) = n /\ all_digits (digits_of n) = true
  /\ nonempty (digits_of n) = true.
Proof.
  intros H. rewrite digits_of_unlead.
  rewrite unlead_value, digits_value_fixed, unlead_nonempty.
  rewrite unlead_digits by apply all_digits_fixed.
  rewrite Z.mod_small; [auto|]. split; [lia|]. now apply log2_width.
Qed.


(** ** [Number] on plain numerals *)


Lemma numeral_char_spec (c : ascii) :
  numeral_char c = true ->
  is_whitespace c = false /\ is_exp_mark c = false /\ radix_prefix c = None
  /\ Ascii.eqb c "+" = false /\ Ascii.eqb c "I" = false.
Proof.
  each_char c; vm_compute; intros H; try discriminate H; repeat split.
Qed.

Lemma digit_char_class (c : ascii) :
  is_digit c = true ->
  numeral_char c = true /\ is_dot c = false /\ Ascii.eqb c "-" = false
  /\ Ascii.eqb c "0" = (digit_value c =? 0).
Proof.
  each_char c; vm_compute; intros H; try discriminate H; repeat split.
Qed.

Lemma all_digits_numeral (s : jsstring) :
  all_digits s = true -> forallb numeral_char s = true.
Proof.
  induction s as [|c s IH]; [reflexivity|]. cbn. intros H.
  apply andb_true_iff in H as [Hc Hs].
  destruct (digit_char_class c Hc) as [-> _]. now apply IH.
Qed.

Lemma trim_right_id (s : jsstring) :
  forallb numeral_char s = true -> trim_right s = s.
Proof.
  induction s as [|c s IH]; [reflexivity|]. cbn. intros H.
  apply andb_true_iff in H as [Hc Hs]. rewrite (IH Hs).
  destruct (numeral_char_spec c Hc) as [-> _]. now destruct s.
Qed.

Lemma trim_id (s : jsstring) :
  forallb numeral_char s = true -> trim s = s.
Proof.
  intros H. unfold trim.
  assert (trim_left s = s) as ->.
  { destruct s as [|c s]; [reflexivity|]. cbn in *.
    apply andb_true_iff in H as [Hc _].
    now destruct (numeral_char_spec c Hc) as [-> _]. }
  now apply trim_right_id.
Qed.

Lemma split_radix_numeral (s : jsstring) :
  forallb numeral_char s = true -> split_radix s = None.
Proof.
  destruct s as [|z [|c r]]; try reflexivity. cbn. intros H.
  apply andb_true_iff in H as [_ H]. apply andb_true_iff in H as [Hc _].
  destruct (numeral_char_spec c Hc) as (_ & _ & -> & _).
  now destruct (Ascii.eqb z "0").
Qed.

Lemma Number_numeral (s : jsstring) :
  forallb numeral_char s = true -> s <> [] ->
  Number s = parse_signed_decimal s.
Proof.
  intros H Hne. unfold Number. rewrite (trim_id s H).
  rewrite (split_radix_numeral s H). destruct s; [contradiction|reflexivity].
Qed.

Lemma split_first_none (p : ascii -> bool) (s : jsstring) :
  forallb (fun c => negb (p c)) s = true -> split_first p s = (s, None).
Proof.
  induction s as [|c s IH]; [reflexivity|]. cbn. intros H.
  apply andb_true_iff in H as [Hc Hs].
  apply negb_true_iff in Hc. now rewrite Hc, (IH Hs).
Qed.

Lemma split_first_app (p : ascii -> bool) (s t : jsstring) (c : ascii) :
  forallb (fun c => negb (p c)) s = true -> p c = true ->
  split_first p (s ++ c :: t) = (s, Some t).
Proof.
  intros Hs Hc. induction s as [|x s IH]; cbn.
  - now rewrite Hc.
  - cbn in Hs. apply andb_true_iff in Hs as [Hx Hs].
    apply negb_true_iff in Hx. now rewrite Hx, (IH Hs).
Qed.

Lemma forallb_impl {A} (p q : A -> bool) (s : list A) :
  (forall x, p x = true -> q x = true) ->
  forallb p s = true -> forallb q s = true.
Proof.
  intros I. induction s as [|c s IH]; [reflexivity|]. cbn. intros H.
  apply andb_true_iff in H as [Hc Hs]. now rewrite (I c Hc), (IH Hs).
Qed.

Lemma numeral_no_exp (s : jsstring) :
  forallb numeral_char s = true ->
  forallb (fun c => negb (is_exp_mark c)) s = true.
Proof.
  apply forallb_impl. intros c Hc.
  now destruct (numeral_char_spec c Hc) as (_ & -> & _).
Qed.

Lemma digits_no_dot (s : jsstring) :
  all_digits s = true -> forallb (fun c => negb (is_dot c)) s = true.
Proof.
  apply forallb_impl. intros c Hc.
  now destruct (digit_char_class c Hc) as (_ & -> & _).
Qed.

Lemma parse_unsigned_plain (ip : jsstring) (frac : option jsstring) :
  all_digits ip = true -> nonempty ip = true ->
  all_digits (fraction_digits frac) = true ->
  parse_unsigned_decimal (ip ++ fraction_text frac)
  = let fp := fraction_digits frac in
    let scale := 10 ^ Z.of_nat (List.length fp) in
    Some (inject_Z (digits_value ip * scale + digits_value fp)
          / inject_Z scale * Qpower (10 # 1) 0)%Q.
Proof.
  intros Hi Hn Hf. unfold parse_unsigned_decimal.
  rewrite split_first_none.
  2:{ apply numeral_no_exp. rewrite forallb_app.
      rewrite (all_digits_numeral ip Hi). destruct frac as [fp|]; cbn; [|reflexivity].
      now apply all_digits_numeral. }
  destruct frac as [fp|]; cbn [fraction_text fraction_digits] in *.
  - rewrite (split_first_app is_dot ip fp "."%char (digits_no_dot ip Hi) eq_refl).
    now rewrite Hi, Hf, Hn.
  - rewrite app_nil_r, (split_first_none is_dot ip (digits_no_dot ip Hi)).
    now rewrite Hi, Hn.
Qed.

Lemma string_eqb_head (c d : ascii) (s t : jsstring) :
  Ascii.eqb c d = false -> string_eqb (c :: s) (d :: t) = false.
Proof.
  intros H. unfold string_eqb.
  destruct (list_eq_dec ascii_dec (c :: s) (d :: t)) as [E|]; [|reflexivity].
  injection E as -> _. now rewrite Ascii.eqb_refl in H.
Qed.

Lemma Number_plain (neg : bool) (ip : jsstring) (frac : option jsstring) :
  all_digits ip = true -> nonempty ip = true ->
  all_digits (fraction_digits frac) = true ->
  Number (sign_text neg ++ ip ++ fraction_text frac)
  = fin (numeral_value neg ip (fraction_digits frac)).
Proof.
  intros Hi Hn Hf.
  destruct ip as [|d ip]; [discriminate Hn|].
  assert (is_digit d = true) as Hd by (cbn in Hi; now apply andb_true_iff in Hi).
  destruct (digit_char_class d Hd) as (Hd1 & _ & Hd2 & _).
  destruct (numeral_char_spec d Hd1) as (_ & _ & _ & Hd3 & Hd4).
  rewrite Number_numeral.
  2:{ rewrite !forallb_app. rewrite (all_digits_numeral _ Hi).
      destruct neg, frac as [fp|]; cbn [sign_text fraction_text forallb];
        cbn [fraction_digits] in Hf; rewrite ?(all_digits_numeral _ Hf); reflexivity. }
  2:{ destruct neg; discriminate. }
  unfold parse_signed_decimal.
  assert (split_sign (sign_text neg ++ (d :: ip) ++ fraction_text frac)
          = (neg, (d :: ip) ++ fraction_text frac)) as ->.
  { destruct neg; cbn; [reflexivity|]. now rewrite Hd2, Hd3. }
  cbn [app]. change (lit "Infinity") with ("I"%char :: lit "nfinity").
  rewrite (string_eqb_head d "I" _ _ Hd4).
  change (d :: ip ++ fraction_text frac) with ((d :: ip) ++ fraction_text frac).
  rewrite (parse_unsigned_plain _ frac Hi Hn Hf). cbv zeta.
  apply fin_eq. unfold numeral_value. cbv zeta.
  change (Qpower (10 # 1) 0) with 1%Q. destruct neg; ring.
Qed.


(** ** [toFixed] and back; the final step of [parse] *)


Lemma Qfloor_half (z : Z) : Qfloor (inject_Z z + (1 # 2)) = z.
Proof.
  unfold Qfloor, Qplus, inject_Z. cbn [Qnum Qden].
  change (Z.pos (1 * 2)) with 2.
  symmetry. apply Z.div_unique with (r := 1); lia.
Qed.

Lemma Qfloor_nonneg (q : Q) : (0 <= q)%Q -> 0 <= Qfloor q.
Proof. intros H. apply (Qfloor_resp_le 0 q H). Qed.

Lemma pow10_pos (f : Z) : 0 <= f -> 0 < 10 ^ f.
Proof. intros H. apply Z.pow_pos_nonneg; lia. Qed.

Lemma nearest_nonneg (f : Z) (q : Q) :
  0 <= f -> 0 <= Qfloor (Qabs q * inject_Z (10 ^ f) + (1 # 2)).
Proof.
  intros H. apply Qfloor_nonneg.
  pose proof (Qabs_nonneg q) as A.
  assert (0 <= inject_Z (10 ^ f))%Q as B.
  { change 0%Q with (inject_Z 0). rewrite <- Zle_Qle. pose proof (pow10_pos f H). lia. }
  pose proof (Qmult_le_0_compat _ _ A B). lra.
Qed.

Lemma toFixed_finite_shape (f : Z) (q : Q) :
  toFixed_finite f q
  = let n := Qfloor (Qabs q * inject_Z (10 ^ f) + (1 # 2)) in
    sign_text (Qsgn q <? 0) ++ digits_of (n / 10 ^ f)
    ++ fraction_text (if f =? 0 then None
                      else Some (fixed_digits (Z.to_nat f) (n mod 10 ^ f))).
Proof.
  unfold toFixed_finite, sign_text, fraction_text. cbv zeta.
  destruct (Qsgn q <? 0), (f =? 0); reflexivity.
Qed.

Lemma Number_toFixed_finite (f : Z) (q : Q) :
  0 <= f -> Number (toFixed_finite f q) = fin (round_digits f q).
Proof.
  intros Hf. rewrite toFixed_finite_shape. cbv zeta.
  set (n := Qfloor (Qabs q * inject_Z (10 ^ f) + (1 # 2))).
  assert (0 <= n) as Hn by (apply nearest_nonneg; exact Hf).
  pose proof (pow10_pos f Hf) as Hs.
  destruct (digits_of_spec (n / 10 ^ f)) as (Hv & Hd & Hne);
    [apply Z.div_pos; lia|].
  rewrite Number_plain; [|exact Hd|exact Hne|].
  2:{ destruct (f =? 0); [reflexivity|apply all_digits_fixed]. }
  apply fin_eq. unfold numeral_value, round_digits. cbv zeta. fold n.
  rewrite Hv.
  assert (inject_Z (n / 10 ^ f
                    * 10 ^ Z.of_nat (List.length (fraction_digits
                        (if f =? 0 then None
                         else Some (fixed_digits (Z.to_nat f) (n mod 10 ^ f)))))
                    + digits_value (fraction_digits
                        (if f =? 0 then None
                         else Some (fixed_digits (Z.to_nat f) (n mod 10 ^ f)))))
          / inject_Z (10 ^ Z.of_nat (List.length (fraction_digits
                        (if f =? 0 then None
                         else Some (fixed_digits (Z.to_nat f) (n mod 10 ^ f))))))
          == inject_Z n / inject_Z (10 ^ f))%Q as E.
  { destruct (Z.eqb_spec f 0) as [->|Hf0]; cbn [fraction_digits List.length].
    - change (10 ^ Z.of_nat 0) with 1. change (10 ^ 0) with 1.
      change (digits_value []) with 0. rewrite Z.div_1_r.
      replace (n * 1 + 0) with n by ring. reflexivity.
    - rewrite length_fixed_digits, digits_value_fixed, Z2Nat.id by lia.
      rewrite Z.mod_mod by lia.
      replace (n / 10 ^ f * 10 ^ f + n mod 10 ^ f) with n
        by (rewrite (Z.div_mod n (10 ^ f)) at 1 by lia; ring).
      reflexivity. }
  destruct (Qsgn q <? 0); rewrite E; reflexivity.
Qed.

Lemma Number_toFixed (f : Z) (x : number) :
  0 <= f <= 100 ->
  exists s, toFixed f x = Ok s /\ Number s = fix_digits f x.
Proof.
  intros [H0 H1]. unfold toFixed.
  assert ((f <? 0) || (100 <? f) = false) as ->.
  { apply orb_false_iff. split; [apply Z.ltb_ge|apply Z.ltb_ge]; lia. }
  destruct x as [| | |q]; eexists; (split; [reflexivity|]);
    try (vm_compute; reflexivity).
  now apply Number_toFixed_finite.
Qed.

Lemma Qabs_inject_Z (k : Z) : Qabs (inject_Z k) = inject_Z (Z.abs k).
Proof. reflexivity. Qed.

Lemma round_digits_integer (f : Z) (q : Q) (k : Z) :
  0 <= f -> (q == inject_Z k)%Q -> (round_digits f q == inject_Z k)%Q.
Proof.
  intros Hf E. unfold round_digits. cbv zeta.
  pose proof (pow10_pos f Hf) as Hs.
  assert (Qfloor (Qabs q * inject_Z (10 ^ f) + (1 # 2)) = Z.abs k * 10 ^ f) as ->.
  { rewrite E, Qabs_inject_Z, <- inject_Z_mult. apply Qfloor_half. }
  rewrite (Qsgn_comp _ _ E).
  assert (~ inject_Z (10 ^ f) == 0)%Q as Hnz.
  { change 0%Q with (inject_Z 0). rewrite inject_Z_injective. lia. }
  rewrite inject_Z_mult.
  unfold Qsgn; cbn [Qnum inject_Z].
  destruct (Z.ltb_spec (Z.sgn k) 0) as [L|L].
  - replace (Z.abs k) with (- k) by lia. rewrite inject_Z_opp. field. exact Hnz.
  - replace (Z.abs k) with k by lia. field. exact Hnz.
Qed.

Lemma round_of_Z (k : Z) : round (of_Z k) = of_Z k.
Proof. unfold round, Math_round, of_Z. now rewrite Qfloor_half. Qed.

Lemma round_fin_integer (q : Q) (k : Z) :
  (q == inject_Z k)%Q -> round (fin q) = of_Z k.
Proof. intros E. rewrite (fin_of_Z q k E). apply round_of_Z. Qed.

Lemma round_integral (x : number) : integral_or_nonfinite (round x).
Proof. destruct x; cbn; auto. now eexists. Qed.

Lemma fix_digits_stable (x : number) :
  integral_or_nonfinite x -> fix_digits 4 x = x.
Proof.
  destruct x as [| | |q]; try reflexivity. intros [k ->]. cbn [fix_digits].
  apply fin_of_Z. apply round_digits_integer; [lia|reflexivity].
Qed.

Lemma rescale (x : number) (P : Q) :
  (0 < P)%Q -> integral_or_nonfinite x ->
  nmul (ndiv x (Fin P)) (Fin P) = x.
Proof.
  intros HP Hx. destruct (Qsgn_pos_ltb P HP) as (S1 & S2 & S3).
  destruct x as [| | |q].
  - reflexivity.
  - cbn [ndiv nmul]. rewrite S1. cbn [nmul]. now rewrite S3.
  - cbn [ndiv nmul]. rewrite S1. cbn [nmul]. now rewrite S3.
  - destruct Hx as [k ->]. cbn [ndiv]. rewrite S2. unfold fin at 1.
    cbn [nmul]. apply fin_of_Z. rewrite Qred_correct. field. lra.
Qed.

Lemma parse_final (th : ThisBinding) (v : JsValue) (s : Settings) (r : bool) :
  parse th v s r
  = x <- parse_scaled th v s ;;
    Ok (if r then round (fix_digits 4 x) else fix_digits 4 x).
Proof.
  unfold parse. destruct (parse_scaled th v s) as [x|e]; [|reflexivity].
  cbn [bind]. destruct (Number_toFixed 4 x) as (t & Ht & Hn); [lia|].
  rewrite Ht. cbn [bind]. cbv zeta. now rewrite Hn.
Qed.

Lemma parse_rescaled (th : ThisBinding) (s : Settings) (x : number) :
  integral_or_nonfinite x ->
  parse th (VNumber (ndiv x (pow (precision s)))) s true = Ok x.
Proof.
  intros Hx. rewrite parse_final. cbn [parse_scaled bind].
  destruct (pow_pos (precision s)) as (P & -> & HP & _).
  rewrite (rescale x P HP Hx), (fix_digits_stable x Hx).
  destruct x as [| | |q]; try reflexivity.
  destruct Hx as [k ->]. f_equal. apply (round_of_Z k).
Qed.


(** ** The constructor *)


Lemma nor_truthy (x y : number) : truthy y = true -> truthy (nor x y) = true.
Proof. intros H. unfold nor. destruct (truthy x) eqn:E; assumption. Qed.

Lemma unit_truthy (p : Z) : truthy (ndiv (Fin 1) (pow p)) = true.
Proof.
  destruct (pow_pos p) as (P & -> & HP & _).
  destruct (Qsgn_pos_ltb P HP) as (_ & S2 & _).
  cbn [ndiv]. rewrite S2. unfold fin, truthy.
  apply negb_true_iff. apply not_true_iff_false. rewrite Qsgn_zero.
  rewrite Qred_correct. intros E.
  assert (0 < 1 / P)%Q by (apply Qlt_shift_div_l; lra). lra.
Qed.

Lemma increment_truthy (o : Opts) : truthy (increment (resolve o)) = true.
Proof.
  cbn [resolve increment].
  destruct (opt_increment (assign defaults o));
    [apply nor_truthy|]; apply unit_truthy.
Qed.

Lemma resolve_idem (o : Opts) :
  resolve (opts_of_settings (resolve o)) = resolve o.
Proof.
  pose proof (increment_truthy o) as T.
  assert (groups (resolve o)
          = match useVedic (resolve o) with
            | Some true => vedicRegex
            | _ => groupRegex
            end) as G by reflexivity.
  destruct (resolve o) as [a b c d e f g h i j k].
  cbn [increment groups useVedic] in T, G. subst k.
  unfold resolve. cbn. unfold nor. rewrite T.
  destruct j as [[|]|]; reflexivity.
Qed.

Lemma Currency_new_spec (th : ThisBinding) (input : JsValue) (o : Opts)
    (a : Currency) :
  Currency_new th input o = Ok a ->
  a = {| opts := o; intValue := intValue a;
         value := ndiv (intValue a) (pow (precision (resolve o)));
         _settings := resolve o;
         _precision := pow (precision (resolve o)) |}
  /\ integral_or_nonfinite (intValue a).
Proof.
  unfold Currency_new.
  set (raw := match input with VCurrency c => VNumber (value c) | _ => input end).
  rewrite parse_final.
  destruct (parse_scaled th raw (resolve o)) as [x|e]; cbn [bind]; [|discriminate].
  intros [= <-]. cbn [intValue]. split; [reflexivity|apply round_integral].
Qed.

Lemma new_rescaled (th : ThisBinding) (o : Opts) (x : number) :
  integral_or_nonfinite x ->
  Currency_new th (VNumber (ndiv x (pow (precision (resolve o)))))
    (opts_of_settings (resolve o))
  = Ok (mk (resolve o) x).
Proof.
  intros Hx. unfold Currency_new. rewrite resolve_idem.
  now rewrite (parse_rescaled th (resolve o) x Hx).
Qed.

Lemma nadd_of_Z (a b : Z) : nadd (of_Z a) (of_Z b) = of_Z (a + b).
Proof. cbn [nadd of_Z]. apply fin_of_Z. now rewrite inject_Z_plus. Qed.


Lemma nmul_of_Z (a b : Z) : nmul (of_Z a) (of_Z b) = of_Z (a * b).
Proof. cbn [nmul of_Z]. apply fin_of_Z. now rewrite inject_Z_mult. Qed.




Lemma ndiv_of_Z (k n : Z) :
  n <> 0 -> ndiv (of_Z k) (of_Z n) = fin (inject_Z k / inject_Z n).
Proof.
  intros H. cbn [ndiv of_Z].
  replace (Qsgn (inject_Z n) =? 0) with false; [reflexivity|].
  symmetry. apply Z.eqb_neq. unfold Qsgn. cbn. lia.
Qed.



Section Distribute.

Variable th : ThisBinding.
Variable o : Opts.





End Distribute.


(** ** [distribute] *)


Ltac Zify.zify_post_hook ::= Z.to_euclidean_division_equations.













(** ** Strings in, strings out *)








Section RoundTrip.

Variable th : ThisBinding.

Lemma pow_2 : pow 2 = Fin (inject_Z 100).
Proof. reflexivity. Qed.





End RoundTrip.


(** ** Invalid input and the final step *)


Lemma parse_abc (th : ThisBinding) (b r : bool) :
  parse th (VString (lit "abc")) (resolve (with_errorOnInvalid b)) r
  = Ok (Fin 0).
Proof. destruct b, r; vm_compute; reflexivity. Qed.

(** C2, as stated, fails: with [errorOnInvalid] set, the string [abc]
    does not raise; it is built with amount zero. *)
Lemma abc_with_flag_is_zero :
  Currency_new (ThisGlobal NaN) (VString (lit "abc"))
    (with_errorOnInvalid true) <> Throw InvalidInput
  /\ exists c,
       Currency_new (ThisGlobal NaN) (VString (lit "abc"))
         (with_errorOnInvalid true) = Ok c
       /\ intValue c = Fin 0.
Proof.
  split; [discriminate|].
  eexists. split; [vm_compute; reflexivity|reflexivity].
Qed.

(** C2, amended: the string [abc] is built with amount zero whether
    [errorOnInvalid] is set, cleared or absent. *)

Theorem abc_is_zero (th : ThisBinding) (b : bool) :
  exists c,
    Currency_new th (VString (lit "abc")) (with_errorOnInvalid b) = Ok c
    /\ intValue c = Fin 0
    /\ exists c', Currency_new th (VString (lit "abc")) no_opts = Ok c'
                  /\ intValue c' = Fin 0.
Proof.
  unfold Currency_new. rewrite parse_abc. cbn [bind].
  eexists. split; [reflexivity|]. split; [reflexivity|].
  change (resolve no_opts) with (resolve (with_errorOnInvalid false)).
  rewrite parse_abc. cbn [bind]. eexists. split; reflexivity.
Qed.

Lemma round_digits_nearest (f : Z) (q : Q) :
  0 <= f ->
  exists n : Z,
    (round_digits f q == inject_Z n / inject_Z (10 ^ f))%Q
    /\ ((q < 0)%Q -> n <= 0) /\ ((0 <= q)%Q -> 0 <= n)
    /\ (Qabs q * inject_Z (10 ^ f) - (1 # 2) < inject_Z (Z.abs n)
        <= Qabs q * inject_Z (10 ^ f) + (1 # 2))%Q.
Proof.
  intros Hf. unfold round_digits. cbv zeta.
  set (m := Qfloor (Qabs q * inject_Z (10 ^ f) + (1 # 2))).
  assert (0 <= m) as Hm by (apply nearest_nonneg; exact Hf).
  pose proof (Qfloor_le (Qabs q * inject_Z (10 ^ f) + (1 # 2))) as Hle.
  pose proof (Qlt_floor (Qabs q * inject_Z (10 ^ f) + (1 # 2))) as Hlt.
  fold m in Hle, Hlt. rewrite inject_Z_plus in Hlt.
  change (inject_Z 1) with 1%Q in Hlt.
  assert (~ inject_Z (10 ^ f) == 0)%Q as Hnz
    by (apply inject_Z_nonzero; pose proof (pow10_pos f Hf); lia).
  destruct (Z.ltb_spec (Qsgn q) 0) as [L|L].
  - assert (q < 0)%Q as Hq by (apply Qsgn_neg, Z.ltb_lt; exact L).
    exists (- m). rewrite Z.abs_opp, Z.abs_eq by lia.
    split; [rewrite inject_Z_opp; field; exact Hnz|].
    split; [intros _; lia|]. split; [intros C; lra|]. split; [lra|exact Hle].
  - exists m. rewrite Z.abs_eq by lia.
    split; [reflexivity|]. split; [|split; [intros _; exact Hm|split; [lra|exact Hle]]].
    intros Hq. apply Qsgn_neg in Hq. apply Z.ltb_lt in Hq. lia.
Qed.


(** ** Where exceptions come from *)


Lemma round_nearest (t : Q) :
  exists z : Z,
    round (Fin t) = of_Z z /\ (t - (1 # 2) < inject_Z z <= t + (1 # 2))%Q.
Proof.
  exists (Qfloor (t + (1 # 2))). split; [reflexivity|].
  pose proof (Qfloor_le (t + (1 # 2))) as Hle.
  pose proof (Qlt_floor (t + (1 # 2))) as Hlt.
  rewrite inject_Z_plus in Hlt. change (inject_Z 1) with 1%Q in Hlt.
  split; [lra|exact Hle].
Qed.

(** C4, amended: the final step of [parse] takes the scaled value through
    [toFixed(4)], which rounds it to four fraction digits (to the nearest,
    a tie going away from zero, [NaN] and the infinities unchanged), and
    then, when [useRounding] is set, through [Math.round], which rounds to
    the nearest integer, a tie going toward [+Infinity]. *)
Theorem parse_final_step (th : ThisBinding) (v : JsValue) (s : Settings)
    (r : bool) :
  parse th v s r
  = (x <- parse_scaled th v s ;;
     Ok (if r then round (fix_digits 4 x) else fix_digits 4 x))
  /\ fix_digits 4 NaN = NaN /\ fix_digits 4 PInf = PInf
  /\ fix_digits 4 NInf = NInf
  /\ round NaN = NaN /\ round PInf = PInf /\ round NInf = NInf
  /\ (forall q : Q,
        exists n : Z,
          fix_digits 4 (Fin q) = fin (inject_Z n / inject_Z 10000)
          /\ 0 <= n * Qsgn q
          /\ (Qabs q * inject_Z 10000 - (1 # 2) < inject_Z (Z.abs n)
              <= Qabs q * inject_Z 10000 + (1 # 2))%Q)
  /\ (forall t : Q,
        exists z : Z,
          round (Fin t) = of_Z z
          /\ (t - (1 # 2) < inject_Z z <= t + (1 # 2))%Q).
Proof.
  split; [apply parse_final|]. do 6 (split; [reflexivity|]).
  split; [|exact round_nearest].
  intros q. destruct (round_digits_nearest 4 q) as (n & En & Hneg & Hpos & B); [lia|].
  exists n. split; [cbn [fix_digits]; apply fin_eq; exact En|].
  split; [|exact B].
  unfold Qsgn. destruct (Qlt_le_dec q 0) as [L|L].
  - specialize (Hneg L). unfold Qlt in L. cbn in L. nia.
  - specialize (Hpos L). unfold Qle in L. cbn in L. nia.
Qed.

(** C4, as stated, fails twice.  For [-0.125] under the default settings
    the scaled value is [-12.5] and the result is [-12], where rounding half
    away from zero gives [-13].  For [2^-14] at precision 0 without
    rounding the result is [0.0001], where truncation gives [0]. *)
Lemma parse_final_step_not_as_claimed :
  (parse_scaled (ThisGlobal NaN) (VNumber (Fin (-1 # 8))) (resolve no_opts)
   = Ok (Fin (-25 # 2))
   /\ parse (ThisGlobal NaN) (VNumber (Fin (-1 # 8))) (resolve no_opts) true
      = Ok (of_Z (-12))
   /\ claimed_final (Fin (-25 # 2)) true = of_Z (-13))
  /\ (parse_scaled (ThisGlobal NaN) (VNumber (Fin (1 # 16384)))
        (resolve (with_precision 0))
      = Ok (Fin (1 # 16384))
      /\ parse (ThisGlobal NaN) (VNumber (Fin (1 # 16384)))
           (resolve (with_precision 0)) false
         = Ok (Fin (1 # 10000))
      /\ claimed_final (Fin (1 # 16384)) false = Fin 0)
  /\ parse (ThisGlobal NaN) (VNumber (Fin (-1 # 8))) (resolve no_opts) true
     <> Ok (claimed_final (Fin (-25 # 2)) true)
  /\ parse (ThisGlobal NaN) (VNumber (Fin (1 # 16384)))
       (resolve (with_precision 0)) false
     <> Ok (claimed_final (Fin (1 # 16384)) false).
Proof. vm_compute. repeat split; discriminate. Qed.


Lemma parse_plain_ok (th : ThisBinding) (v : JsValue) (s : Settings) (r : bool) :
  plain_operand v = true -> exists n, parse th v s r = Ok n.
Proof.
  intros H. rewrite parse_final.
  destruct v; try discriminate H; cbn [parse_scaled bind]; eexists; reflexivity.
Qed.

Lemma new_number_ok (th : ThisBinding) (n : number) (o : Opts) :
  exists c, Currency_new th (VNumber n) o = Ok c /\ _settings c = resolve o.
Proof.
  unfold Currency_new.
  destruct (parse_plain_ok th (VNumber n) (resolve o) true eq_refl) as [x ->].
  cbn [bind]. eexists. split; reflexivity.
Qed.



Lemma distribute_loop_no_throw (th : ThisBinding) (fuel : nat) (c : Currency)
    (sp : number) (count : Z) (pennies : number) (acc : list Currency)
    (e : JsError) :
  distribute_loop th fuel c sp count pennies acc <> Some (Throw e).
Proof.
  revert count pennies acc.
  induction fuel as [|fuel IH]; intros count pennies acc; cbn [distribute_loop].
  - discriminate.
  - destruct (count =? 0); [discriminate|].
    destruct (new_number_ok th (ndiv sp (_precision c))
                (opts_of_settings (_settings c))) as (item & -> & _).
    cbn [bind].
    assert (forall op, (op = add th item \/ op = subtract th item) ->
              exists it, op (VNumber (ndiv (Fin 1) (_precision c))) = Ok it)
      as Hop.
    { intros op [-> | ->]; unfold add, subtract;
        destruct (parse_plain_ok th (VNumber (ndiv (Fin 1) (_precision c)))
                    (_settings item) true eq_refl) as [p ->];
        cbn [bind];
        match goal with
        | |- exists it, Currency_new th (VNumber ?n) ?o = Ok it =>
            destruct (new_number_ok th n o) as (it & -> & _); now exists it
        end. }
    destruct (ngt pennies (Fin 0)).
    + destruct (nge (intValue c) (Fin 0)).
      * destruct (Hop _ (or_introl eq_refl)) as [it ->]. apply IH.
      * destruct (Hop _ (or_intror eq_refl)) as [it ->]. apply IH.
    + apply IH.
Qed.




(** ** Arithmetic and settings *)





Lemma units_new (th : ThisBinding) (n : Z) :
  Currency_new th (VNumber (of_Z n)) no_opts = Ok (units n).
Proof.
  unfold Currency_new. rewrite parse_final. cbn [parse_scaled bind].
  change (pow (precision (resolve no_opts))) with (of_Z 100).
  rewrite nmul_of_Z, fix_digits_stable by (now eexists).
  rewrite round_of_Z. unfold units. f_equal. f_equal.
  rewrite ndiv_of_Z by lia. apply fin_of_Z.
  rewrite inject_Z_mult. field.
Qed.


(** ** Integral amounts; grouping *)


(** C7: [add] with a currency operand does not read the operand.  [parse]
    reads [this.value] instead, so every currency operand gives the same
    result: a TypeError when [this] is undefined, and an amount of [NaN]
    when the global object has no [value], where the amounts 100, 200 and
    300 should add up to 600. *)
Theorem add_currency_operand_misread :
  (forall th a b b', add th a (VCurrency b) = add th a (VCurrency b'))
  /\ (forall th, Currency_new th (VNumber (Fin 1)) no_opts = Ok (units 1)
                 /\ Currency_new th (VNumber (Fin 2)) no_opts = Ok (units 2)
                 /\ Currency_new th (VNumber (Fin 3)) no_opts = Ok (units 3))
  /\ add ThisUndefined (units 1) (VCurrency (units 2)) = Throw TypeError
  /\ (exists r,
        add (ThisGlobal NaN) (units 1) (VCurrency (units 2)) = Ok r
        /\ intValue r = NaN
        /\ exists r',
             add (ThisGlobal NaN) r (VCurrency (units 3)) = Ok r'
             /\ intValue r' = NaN)
  /\ nadd (nadd (intValue (units 1)) (intValue (units 2)))
          (intValue (units 3)) = of_Z 600.
Proof.
  split; [reflexivity|].
  split; [intros th; repeat split; apply (units_new th)|].
  split; [reflexivity|].
  split; [|reflexivity].
  eexists. split; [cbv; reflexivity|]. split; [reflexivity|].
  eexists. split; [cbv; reflexivity|reflexivity].
Qed.











(** C9: 1234567 with [useVedic] formats as [12,34,567.00], a group of
    three digits on the right and groups of two before it, where the
    standard grouping gives [1,234,567.00]. *)
Theorem vedic_format (th : ThisBinding) :
  exists c,
    Currency_new th (VNumber (Fin 1234567)) (with_useVedic true) = Ok c
    /\ format c None = Ok (lit "12,34,567.00")
    /\ exists c',
         Currency_new th (VNumber (Fin 1234567)) no_opts = Ok c'
         /\ format c' None = Ok (lit "1,234,567.00").
Proof.
  eexists. split; [cbv; reflexivity|]. split; [vm_compute; reflexivity|].
  eexists. split; [cbv; reflexivity|]. vm_compute; reflexivity.
Qed.


(** ** [dollars] and [cents] *)


Lemma Qtrunc_floor (q : Q) :
  Qtrunc q = if Qsgn q <? 0 then - Qfloor (- q) else Qfloor q.
Proof.
  destruct q as [n d]. unfold Qtrunc, Qsgn, Qfloor, Qopp. cbn [Qnum Qden].
  destruct (Z.ltb_spec (Z.sgn n) 0) as [L|L].
  - rewrite <- (Z.quot_div_nonneg (- n)) by lia.
    rewrite Z.quot_opp_l by lia. lia.
  - rewrite Z.quot_div_nonneg by lia. reflexivity.
Qed.

Lemma Qtrunc_comp (a b : Q) : (a == b)%Q -> Qtrunc a = Qtrunc b.
Proof.
  intros E. rewrite !Qtrunc_floor, (Qsgn_comp a b E).
  destruct (Qsgn b <? 0); [f_equal|]; apply Qfloor_comp; now rewrite E.
Qed.

Lemma Qtrunc_div (k P : Z) :
  0 < P -> Qtrunc (inject_Z k / inject_Z P) = Z.quot k P.
Proof.
  intros HP. destruct P as [|p|p]; try lia.
  unfold Qtrunc, Qdiv, Qmult, Qinv, inject_Z. cbn [Qnum Qden].
  now rewrite Z.mul_1_r, Pos.mul_1_l.
Qed.

Lemma ToInt32_range (x : number) : - 2 ^ 31 <= ToInt32 x < 2 ^ 31.
Proof.
  destruct x as [| | |q]; cbn [ToInt32]; try lia.
  pose proof (Z.mod_pos_bound (Qtrunc q) (2 ^ 32) ltac:(lia)).
  destruct (Z.leb_spec (2 ^ 31) (Qtrunc q mod 2 ^ 32)); lia.
Qed.

Lemma ToInt32_small (q : Q) :
  - 2 ^ 31 <= Qtrunc q < 2 ^ 31 -> ToInt32 (Fin q) = Qtrunc q.
Proof.
  intros H. cbn [ToInt32].
  destruct (Z.leb_spec 0 (Qtrunc q)) as [L|L].
  - rewrite Z.mod_small by lia.
    destruct (Z.leb_spec (2 ^ 31) (Qtrunc q)); lia.
  - replace (Qtrunc q mod 2 ^ 32) with (Qtrunc q + 2 ^ 32)
      by (apply Z.mod_unique with (q := -1); lia).
    destruct (Z.leb_spec (2 ^ 31) (Qtrunc q + 2 ^ 32)); lia.
Qed.

Lemma Qtrunc_inject_Z (z : Z) : Qtrunc (inject_Z z) = z.
Proof. unfold Qtrunc, inject_Z. cbn [Qnum Qden]. apply Z.quot_1_r. Qed.

Lemma double_not (x : number) :
  BitwiseNot (BitwiseNot x) = of_Z (ToInt32 x).
Proof.
  pose proof (ToInt32_range x) as R. unfold BitwiseNot at 1. f_equal.
  unfold BitwiseNot, of_Z. rewrite ToInt32_small; rewrite Qtrunc_inject_Z.
  - apply Z.lnot_involutive.
  - unfold Z.lnot. lia.
Qed.

Lemma pow_of_Z (p : Z) : 0 <= p -> pow p = of_Z (10 ^ p).
Proof.
  intros H. unfold pow, Math_pow10. apply fin_of_Z.
  change (10 # 1)%Q with (inject_Z 10). symmetry. now apply Zpower_Qpower.
Qed.

Lemma nrem_of_Z (k P : Z) :
  0 < P -> nrem (of_Z k) (of_Z P) = of_Z (Z.rem k P).
Proof.
  intros HP. cbn [nrem of_Z].
  replace (Qsgn (inject_Z P) =? 0) with false
    by (symmetry; apply Z.eqb_neq; unfold Qsgn; cbn; lia).
  apply fin_of_Z. rewrite (Qtrunc_div k P HP).
  unfold Qminus. rewrite <- inject_Z_mult, <- inject_Z_opp, <- inject_Z_plus.
  apply inject_Z_injective. pose proof (Z.quot_rem' k P). lia.
Qed.


(** C10, amended: for a constructed value with an integer amount [k], a
    precision from 0 to 9 and a display value below 2^31 in magnitude, [dollars] is
    [k quot 10^precision] and [cents] is [k rem 10^precision]: they
    recompose the amount, and neither is positive for a negative amount. *)
Theorem dollars_cents_recompose (th : ThisBinding) (input : JsValue)
    (o : Opts) (c : Currency) (k : Z) :
  Currency_new th input o = Ok c ->
  0 <= precision (_settings c) <= 9 ->
  intValue c = of_Z k ->
  ngt (of_Z (2 ^ 31)) (Math_abs (value c)) = true ->
  let P := 10 ^ precision (_settings c) in
  dollars c = of_Z (Z.quot k P)
  /\ cents c = of_Z (Z.rem k P)
  /\ nadd (nmul (dollars c) (pow (precision (_settings c)))) (cents c)
     = intValue c
  /\ Z.quot k P * P + Z.rem k P = k
  /\ (k <= 0 -> Z.quot k P <= 0 /\ Z.rem k P <= 0)
  /\ (0 <= k -> 0 <= Z.quot k P /\ 0 <= Z.rem k P).
Proof.
  intros Hnew Hp Hk Hmag P.
  destruct (Currency_new_spec th input o c Hnew) as [Hc _].
  assert (_settings c = resolve o) as Hs by (rewrite Hc; reflexivity).
  assert (_precision c = pow (precision (_settings c))) as Hpr
    by (rewrite Hc; reflexivity).
  assert (value c = ndiv (intValue c) (pow (precision (_settings c)))) as Hv
    by (rewrite Hc; reflexivity).
  assert (0 < P) as HP by (apply Z.pow_pos_nonneg; lia).
  assert (P <= 10 ^ 9) as HP9 by (apply Z.pow_le_mono_r; lia).
  rewrite (pow_of_Z _ (proj1 Hp)) in Hpr, Hv |- *. fold P in Hpr, Hv |- *.
  rewrite Hk in Hv |- *. rewrite ndiv_of_Z in Hv by lia.
  (* the magnitude bound, on integers *)
  assert (Z.abs k < 2 ^ 31 * P) as Hb.
  { rewrite Hv in Hmag. unfold fin in Hmag. cbn [Math_abs ngt of_Z] in Hmag.
    unfold fin in Hmag. apply negb_true_iff in Hmag.
    apply not_true_iff_false in Hmag. rewrite Qle_bool_iff in Hmag.
    apply Qnot_le_lt in Hmag. rewrite !Qred_correct in Hmag.
    assert (Qabs (inject_Z k / inject_Z P) == inject_Z (Z.abs k) / inject_Z P)%Q as E.
    { unfold Qdiv. rewrite Qabs_Qmult, Qabs_Qinv.
      change (Qabs (inject_Z k)) with (inject_Z (Z.abs k)).
      change (Qabs (inject_Z P)) with (inject_Z (Z.abs P)).
      now rewrite (Z.abs_eq P) by lia. }
    rewrite E in Hmag.
    assert (0 < inject_Z P)%Q as HPQ
      by (change 0%Q with (inject_Z 0); rewrite <- Zlt_Qlt; lia).
    apply (Qmult_lt_r _ _ _ HPQ) in Hmag.
    assert (inject_Z (Z.abs k) / inject_Z P * inject_Z P == inject_Z (Z.abs k))%Q as E2
      by (field; lra).
    rewrite E2, <- inject_Z_mult, <- Zlt_Qlt in Hmag. exact Hmag. }
  assert (dollars c = of_Z (Z.quot k P)) as Hd.
  { unfold dollars. rewrite double_not, Hv. f_equal. unfold fin.
    rewrite ToInt32_small; rewrite (Qtrunc_comp _ _ (Qred_correct _)), Qtrunc_div by lia.
    - reflexivity.
    - nia. }
  assert (cents c = of_Z (Z.rem k P)) as Hce.
  { unfold cents. rewrite double_not, Hk, Hpr, nrem_of_Z by lia.
    f_equal. unfold of_Z. rewrite ToInt32_small; rewrite Qtrunc_inject_Z.
    - reflexivity.
    - pose proof (Z.rem_bound_abs k P ltac:(lia)). lia. }
  rewrite Hd, Hce, nmul_of_Z, nadd_of_Z.
  pose proof (Z.quot_rem' k P) as QR.
  split; [reflexivity|]. split; [reflexivity|].
  split; [f_equal; lia|]. split; [lia|]. split; intros Hsg.
  - split.
    + assert (0 <= Z.quot (- k) P) by (apply Z.quot_pos; lia).
      rewrite Z.quot_opp_l in * by lia. lia.
    + apply Z.rem_nonpos; lia.
  - split; [apply Z.quot_pos; lia|apply Z.rem_nonneg; lia].
Qed.

(** C10, as stated, fails: at precision 10 the amount of [0.5] is
    5000000000, which [cents] wraps to 705032704. *)
Lemma cents_wraps_at_precision_10 :
  exists c,
    Currency_new (ThisGlobal NaN) (VNumber (Fin (1 # 2))) (with_precision 10)
    = Ok c
    /\ intValue c = of_Z 5000000000
    /\ value c = Fin (1 # 2)
    /\ ngt (of_Z (2 ^ 31)) (Math_abs (value c)) = true
    /\ dollars c = of_Z 0
    /\ cents c = of_Z 705032704
    /\ nadd (nmul (dollars c) (pow (precision (_settings c)))) (cents c)
       <> intValue c.
Proof.
  eexists. split; [cbv; reflexivity|]. vm_compute.
  repeat split. discriminate.
Qed.

(** ** What the constructor establishes *)


(** ** Arithmetic on amounts *)





Lemma constructed_fields (th : ThisBinding) (input : JsValue) (o : Opts)
    (a : Currency) :
  Currency_new th input o = Ok a ->
  _settings a = resolve o /\ _precision a = pow (precision (resolve o))
  /\ integral_or_nonfinite (intValue a).
Proof.
  intros H. destruct (Currency_new_spec th input o a H) as [E I].
  repeat split; [rewrite E; reflexivity..|exact I].
Qed.











Lemma new_nonfinite (th : ThisBinding) (o : Opts) (x : number) :
  match x with Fin _ => False | _ => True end ->
  Currency_new th (VNumber x) (opts_of_settings (resolve o))
  = Ok (mk (resolve o) x).
Proof.
  intros Hx.
  assert (ndiv x (pow (precision (resolve o))) = x) as E.
  { destruct (pow_pos (precision (resolve o))) as (P & -> & HP & _).
    destruct (Qsgn_pos_ltb P HP) as (S1 & _).
    destruct x; cbn [ndiv]; rewrite ?S1; try reflexivity. contradiction. }
  rewrite <- E at 1. apply new_rescaled. destruct x; try exact I. contradiction.
Qed.

(** X7: [divide] by zero does not throw: an integer amount [k] becomes
    [+Infinity], [-Infinity] or [NaN] as [k] is positive, negative or
    zero. *)
Theorem divide_by_zero_amount (th : ThisBinding) (input : JsValue) (o : Opts)
    (a : Currency) (k : Z) :
  Currency_new th input o = Ok a ->
  intValue a = of_Z k ->
  divide th a (VNumber (Fin 0))
  = Ok (mk (_settings a) (inf_of_sign (Z.sgn k))).
Proof.
  intros Ha Hk.
  destruct (constructed_fields th input o a Ha) as (Hs & Hpr & Hi).
  unfold divide.
  assert (parse th (VNumber (Fin 0)) (_settings a) false = Ok (Fin 0)) as ->.
  { rewrite parse_final. cbn [parse_scaled bind].
    destruct (pow_pos (precision (_settings a))) as (P & -> & _ & _).
    cbn [nmul].
    assert (fin (0 * P) = of_Z 0) as -> by (apply fin_of_Z; ring).
    now rewrite fix_digits_stable by (now exists 0). }
  cbn [bind]. rewrite Hk, Hs.
  assert (ndiv (of_Z k) (Fin 0) = inf_of_sign (Z.sgn k)) as -> by reflexivity.
  apply new_nonfinite. destruct (Z.sgn k); exact I.
Qed.




(** ** What [toString] prints *)











(** ** What [parse] reads in a string *)

Lemma last_close_inner (t : jsstring) :
  forallb inner_char t = true -> last_close (t ++ [")"%char]) = Some (t, []).
Proof.
  induction t as [|c t IH]; [reflexivity|]. cbn [forallb app]. intros H.
  apply andb_true_iff in H as [Hc Ht]. unfold inner_char in Hc.
  apply andb_true_iff in Hc as [Hc H3]. apply andb_true_iff in Hc as [H1 H2].
  apply negb_true_iff in H1, H2, H3.
  cbn [last_close]. now rewrite H3, (IH Ht).
Qed.

Lemma replace_paren_none (t : jsstring) :
  forallb (fun c => negb (Ascii.eqb c "(")) t = true -> replace_paren t = t.
Proof.
  induction t as [|c t IH]; [reflexivity|]. cbn [forallb replace_paren].
  intros H. apply andb_true_iff in H as [Hc Ht].
  apply negb_true_iff in Hc. now rewrite Hc, (IH Ht).
Qed.

Lemma inner_no_open (t : jsstring) :
  forallb inner_char t = true ->
  forallb (fun c => negb (Ascii.eqb c "(")) t = true.
Proof.
  apply forallb_impl. intros c H. unfold inner_char in H.
  apply andb_true_iff in H as [H _]. now apply andb_true_iff in H as [H _].
Qed.

(** X13: a string in parentheses, with neither a parenthesis nor a line
    terminator between them, is read as what stands between them with a
    minus sign in front. *)
Theorem parentheses_mean_minus (th : ThisBinding) (t : jsstring) (o : Opts) :
  forallb inner_char t = true ->
  replace_paren ("("%char :: t ++ [")"%char]) = "-"%char :: t
  /\ Currency_new th (VString ("("%char :: t ++ [")"%char])) o
     = Currency_new th (VString ("-"%char :: t)) o.
Proof.
  intros H.
  assert (replace_paren ("("%char :: t ++ [")"%char]) = "-"%char :: t) as E.
  { cbn [replace_paren]. change (Ascii.eqb "(" "(") with true. cbv iota.
    rewrite (last_close_inner t H). now rewrite app_nil_r. }
  split; [exact E|].
  unfold Currency_new, parse, parse_scaled. rewrite E.
  assert (replace_paren ("-"%char :: t) = "-"%char :: t) as ->
    by (apply replace_paren_none; cbn; now apply inner_no_open).
  reflexivity.
Qed.

Lemma filter_idem {A} (p : A -> bool) (l : list A) :
  filter p (filter p l) = filter p l.
Proof.
  induction l as [|x l IH]; [reflexivity|]. cbn [filter].
  destruct (p x) eqn:E; [|exact IH]. cbn [filter]. now rewrite E, IH.
Qed.

Lemma filter_keeps {A} (p q : A -> bool) (l : list A) :
  forallb q l = true -> forallb q (filter p l) = true.
Proof.
  induction l as [|x l IH]; [reflexivity|]. cbn [forallb filter]. intros H.
  apply andb_true_iff in H as [Hx Hl].
  destruct (p x); [cbn [forallb]; rewrite Hx|]; now apply IH.
Qed.

(** X14: in a string without an opening parenthesis only the digits, the
    minus signs and the decimal marks count: the string and what is left of
    it when every other character is removed construct the same value. *)
Theorem only_numeric_characters_count (th : ThisBinding) (s : jsstring)
    (o : Opts) :
  forallb (fun c => negb (Ascii.eqb c "(")) s = true ->
  Currency_new th (VString s) o
  = Currency_new th
      (VString (strip_nonnumeric (decimal (resolve o)) s)) o.
Proof.
  intros H. unfold Currency_new, parse, parse_scaled.
  rewrite (replace_paren_none s H).
  rewrite (replace_paren_none (strip_nonnumeric _ s))
    by (apply filter_keeps; exact H).
  unfold strip_nonnumeric. now rewrite filter_idem.
Qed.

(** ** When [distribute] returns *)

Lemma distribute_loop_negative (th : ThisBinding) (fuel : nat) (c : Currency)
    (sp : number) (count : Z) (pennies : number) (acc : list Currency) :
  count < 0 -> distribute_loop th fuel c sp count pennies acc = None.
Proof.
  revert count pennies acc. induction fuel as [|fuel IH];
    intros count pennies acc Hc; [reflexivity|].
  destruct (distribute_loop th (S fuel) c sp count pennies acc) as [[l|e]|] eqn:E;
    [|now apply distribute_loop_no_throw in E|reflexivity].
  exfalso. cbn [distribute_loop] in E.
  replace (count =? 0) with false in E by (symmetry; apply Z.eqb_neq; lia).
  match type of E with
  | match ?i with _ => _ end = _ => destruct i; [|discriminate E]
  end.
  rewrite IH in E by lia. discriminate E.
Qed.

Lemma distribute_loop_returns (th : ThisBinding) (c : Currency) (sp : number)
    (n : nat) :
  forall (fuel : nat) (pennies : number) (acc : list Currency),
    (n < fuel)%nat ->
    exists items,
      distribute_loop th fuel c sp (Z.of_nat n) pennies acc = Some (Ok items).
Proof.
  induction n as [|n IH]; intros fuel pennies acc Hf.
  - destruct fuel as [|fuel]; [lia|]. now exists acc.
  - destruct fuel as [|fuel]; [lia|].
    pose proof (distribute_loop_no_throw th (S fuel) c sp (Z.of_nat (S n))
                  pennies acc) as N.
    cbn [distribute_loop] in N |- *.
    replace (Z.of_nat (S n) =? 0) with false in N |- *
      by (symmetry; apply Z.eqb_neq; lia).
    match goal with
    | |- exists _, match ?i with _ => _ end = _ => destruct i as [item|e]
    end.
    + replace (Z.of_nat (S n) - 1) with (Z.of_nat n) by lia.
      apply IH. lia.
    + exfalso. now apply (N e).
Qed.

(** X15: [distribute] returns, given enough fuel, exactly when the count is
    not negative, whatever the receiver: under a negative count the loop
    condition [count !== 0] never fails. *)
Theorem distribute_returns_iff (th : ThisBinding) (c : Currency) (count : Z) :
  (exists fuel items, distribute th fuel c count = Some (Ok items))
  <-> 0 <= count.
Proof.
  split.
  - intros (fuel & items & H). destruct (Z.le_gt_cases 0 count) as [L|L]; [exact L|].
    unfold distribute in H. rewrite distribute_loop_negative in H by exact L.
    discriminate H.
  - intros Hc. exists (S (Z.to_nat count)). unfold distribute. cbv zeta.
    set (sp := (if nge (intValue c) (Fin 0) then Math_floor else Math_ceil) _).
    set (pn := Math_abs _). clearbody pn. clearbody sp.
    destruct (distribute_loop_returns th c sp (Z.to_nat count)
                (S (Z.to_nat count)) pn [] (Nat.lt_succ_diag_r _))
      as (items & H).
    exists items. rewrite Z2Nat.id in H by exact Hc. exact H.
Qed.

(** ** Grouping and [format] *)

Lemma digit_is_word (c : ascii) : is_digit c = true -> is_word c = true.
Proof. intros H. unfold is_word. now rewrite H, orb_true_r. Qed.

Lemma boundary_digits (r : jsstring) :
  all_digits r = true -> boundary_after_word r = Nat.eqb (List.length r) 0.
Proof.
  destruct r as [|c r]; [reflexivity|]. cbn. intros H.
  apply andb_true_iff in H as [Hc _]. now rewrite (digit_is_word c Hc).
Qed.

Lemma lookahead_group_rule (n : nat) :
  forall r, (List.length r <= n)%nat -> all_digits r = true ->
    is_some (lookahead_group r) = standard_rule (List.length r).
Proof.
  induction n as [n IH] using lt_wf_ind. intros r Hn Hd.
  destruct r as [|d1 [|d2 [|d3 r]]]; try reflexivity.
  cbn [all_digits forallb] in Hd.
  apply andb_true_iff in Hd as [H1 Hd]. apply andb_true_iff in Hd as [H2 Hd].
  apply andb_true_iff in Hd as [H3 Hd].
  cbn [lookahead_group]. rewrite H1, H2, H3. cbn [andb].
  cbn [List.length] in Hn.
  specialize (IH (List.length r) ltac:(lia) r (le_n _) Hd).
  rewrite (boundary_digits r Hd).
  assert (standard_rule (List.length (d1 :: d2 :: d3 :: r))
          = (standard_rule (List.length r) || Nat.eqb (List.length r) 0)) as ->.
  { cbn [List.length]. unfold standard_rule.
    replace (S (S (S (List.length r))) mod 3)%nat with (List.length r mod 3)%nat
      by (rewrite <- (Nat.Div0.mod_add (List.length r) 1 3); f_equal; lia).
    cbn [Nat.eqb negb andb].
    destruct (Nat.eqb_spec (List.length r) 0) as [->|]; [reflexivity|].
    cbn [negb andb]. now rewrite orb_false_r. }
  rewrite <- IH.
  destruct (lookahead_group r); [reflexivity|].
  cbn [is_some orb]. now destruct (Nat.eqb (List.length r) 0).
Qed.

Lemma lookahead_vedic_rule (n : nat) :
  forall r, (List.length r <= n)%nat -> all_digits r = true ->
    is_some (lookahead_vedic r) = vedic_rule (List.length r).
Proof.
  induction n as [n IH] using lt_wf_ind. intros r Hn Hd.
  destruct r as [|d1 [|d2 r]]; try reflexivity.
  cbn [all_digits forallb] in Hd.
  apply andb_true_iff in Hd as [H1 Hd]. apply andb_true_iff in Hd as [H2 Hd].
  cbn [lookahead_vedic]. rewrite H1, H2. cbn [andb].
  cbn [List.length] in Hn.
  specialize (IH (List.length r) ltac:(lia) r (le_n _) Hd).
  assert (vedic_rule (List.length (d1 :: d2 :: r))
          = (vedic_rule (List.length r) || Nat.eqb (List.length r) 1)) as ->.
  { cbn [List.length]. unfold vedic_rule.
    rewrite Nat.odd_succ, Nat.even_succ.
    destruct (List.length r) as [|[|[|m]]]; try reflexivity.
    cbn [Nat.leb Nat.eqb orb andb]. now rewrite orb_false_r. }
  rewrite <- IH.
  destruct (lookahead_vedic r) as [cap|]; [reflexivity|]. cbn [is_some orb].
  destruct r as [|d r]; [reflexivity|].
  cbn [all_digits forallb] in Hd. apply andb_true_iff in Hd as [H3 Hd].
  rewrite H3, (boundary_digits r Hd). cbn [andb List.length Nat.eqb].
  now destruct (Nat.eqb (List.length r) 0).
Qed.

Lemma GetSubstitution_literal (m b a : jsstring) (caps : list jsstring)
    (t : jsstring) :
  no_dollar t = true -> GetSubstitution m b a caps t = t.
Proof.
  induction t as [|c t IH]; [reflexivity|]. cbn [no_dollar forallb]. intros H.
  apply andb_true_iff in H as [Hc Ht]. cbn [GetSubstitution].
  rewrite Hc. f_equal. now apply IH.
Qed.

Lemma GetSubstitution_first_group (c : ascii) (b a cap sep : jsstring) :
  no_dollar sep = true ->
  GetSubstitution [c] b a [[c]; cap] (lit "$1" ++ sep) = c :: sep.
Proof.
  intros H. change (lit "$1" ++ sep) with ("$"%char :: "1"%char :: sep).
  cbn [GetSubstitution]. change (Ascii.eqb "$" "$") with true. cbn [negb].
  change (Ascii.eqb "1" "$") with false. change (Ascii.eqb "1" "&") with false.
  change (Ascii.eqb "1" "`") with false. change (Ascii.eqb "1" "'") with false.
  change (is_digit "1") with true. cbv iota.
  change (digit_value "1") with 1. cbn [List.length Z.of_nat].
  assert ((1 <=? 1) && (1 <=? Z.pos (Pos.of_succ_nat 1)) = true) as T
    by reflexivity.
  destruct sep as [|d sep'].
  - reflexivity.
  - pose proof (GetSubstitution_literal [c] b a [[c]; cap] (d :: sep') H) as L.
    set (G := GetSubstitution [c] b a [[c]; cap] (d :: sep')) in *.
    destruct (is_digit d) eqn:Ed.
    + destruct (is_digit_spec d Ed) as [[D0 D9] _].
      replace ((1 <=? 10 * 1 + digit_value d)
               && (10 * 1 + digit_value d <=? Z.pos (Pos.of_succ_nat 1)))
        with false
        by (symmetry; apply andb_false_iff; right; apply Z.leb_gt; lia).
      rewrite T. change (nth (Z.to_nat (1 - 1)) [[c]; cap] []) with [c].
      cbn [app]. now rewrite L.
    + rewrite T. change (nth (Z.to_nat (1 - 1)) [[c]; cap] []) with [c].
      cbn [app]. now rewrite L.
Qed.

Lemma replace_groups_grouped (g : GroupRegex) (rule : nat -> bool)
    (sep : jsstring) :
  (forall r, all_digits r = true ->
             is_some (lookahead g r) = rule (List.length r)) ->
  no_dollar sep = true ->
  forall s before, all_digits s = true ->
    replace_groups_from g (lit "$1" ++ sep) before s = grouped rule sep s.
Proof.
  intros Hrule Hsep. induction s as [|c s IH]; intros before Hd; [reflexivity|].
  cbn [all_digits forallb] in Hd. apply andb_true_iff in Hd as [Hc Hs].
  cbn [replace_groups_from grouped]. rewrite Hc, <- (Hrule s Hs).
  destruct (lookahead g s) as [cap|]; cbn [is_some].
  - rewrite (GetSubstitution_first_group c before s cap sep Hsep).
    cbn [app]. f_equal. f_equal. now apply IH.
  - cbn [app]. f_equal. now apply IH.
Qed.

Lemma replace_groups_rule (g : GroupRegex) (sep s : jsstring) :
  no_dollar sep = true -> all_digits s = true ->
  replace_groups g (lit "$1" ++ sep) s = grouped (group_rule g) sep s.
Proof.
  intros Hsep Hd. unfold replace_groups.
  apply replace_groups_grouped; try assumption.
  intros r Hr. destruct g; cbn [lookahead group_rule].
  - exact (lookahead_group_rule _ r (le_n _) Hr).
  - exact (lookahead_vedic_rule _ r (le_n _) Hr).
Qed.

(** X16: on a string of digits, with a separator that has no dollar sign,
    replacing by [groupRegex] puts the separator after every digit that has
    a positive multiple of three digits to its right, and replacing by
    [vedicRegex] after every digit that has an odd number of digits, three
    at least, to its right. *)
Theorem grouping_rules (sep s : jsstring) :
  no_dollar sep = true -> all_digits s = true ->
  replace_groups groupRegex (lit "$1" ++ sep) s = grouped standard_rule sep s
  /\ replace_groups vedicRegex (lit "$1" ++ sep) s = grouped vedic_rule sep s.
Proof.
  intros Hsep Hd.
  split; [exact (replace_groups_rule groupRegex sep s Hsep Hd)
         |exact (replace_groups_rule vedicRegex sep s Hsep Hd)].
Qed.













(** ** The emitter: arrays and own properties *)

Lemma string_eqb_true (s t : jsstring) : string_eqb s t = true <-> s = t.
Proof.
  unfold string_eqb. destruct (list_eq_dec ascii_dec s t); split;
    try discriminate; auto; contradiction.
Qed.

Lemma string_eqb_false (s t : jsstring) : string_eqb s t = false <-> s <> t.
Proof.
  unfold string_eqb. destruct (list_eq_dec ascii_dec s t); split;
    try discriminate; auto; contradiction.
Qed.

Lemma string_eqb_refl (s : jsstring) : string_eqb s s = true.
Proof. now apply string_eqb_true. Qed.

Lemma length_store {A : Type} (heap : list (list A)) (a : Addr) (l : list A) :
  List.length (store heap a l) = List.length heap.
Proof.
  revert a. induction heap as [|x r IH]; intros [|a]; cbn; auto.
Qed.

Lemma fetch_store_same {A : Type} (heap : list (list A)) (a : Addr)
    (l : list A) :
  (a < List.length heap)%nat -> fetch (store heap a l) a = l.
Proof.
  unfold fetch. revert a. induction heap as [|x r IH]; intros [|a] H;
    cbn in *; try lia; auto. apply IH. lia.
Qed.

Lemma fetch_store_other {A : Type} (heap : list (list A)) (a b : Addr)
    (l : list A) :
  a <> b -> fetch (store heap a l) b = fetch heap b.
Proof.
  unfold fetch. revert a b. induction heap as [|x r IH]; intros [|a] [|b] H;
    cbn; try reflexivity; try contradiction. apply IH. congruence.
Qed.

Lemma fetch_app_old {A : Type} (heap more : list (list A)) (a : Addr) :
  (a < List.length heap)%nat -> fetch (heap ++ more) a = fetch heap a.
Proof. intros H. unfold fetch. now apply app_nth1. Qed.

Lemma fetch_app_new {A : Type} (heap : list (list A)) (l : list A) :
  fetch (heap ++ [l]) (List.length heap) = l.
Proof. unfold fetch. rewrite app_nth2, Nat.sub_diag by lia. reflexivity. Qed.

Lemma get_own_set_same (k : jsstring) (a : Addr) (o : list (jsstring * Addr)) :
  get_own k (set_own k a o) = Some a.
Proof.
  induction o as [|[k' x] r IH]; cbn.
  - now rewrite string_eqb_refl.
  - destruct (string_eqb k' k) eqn:E; cbn; rewrite E; auto.
Qed.

Lemma get_own_set_other (k k' : jsstring) (a : Addr)
    (o : list (jsstring * Addr)) :
  k' <> k -> get_own k' (set_own k a o) = get_own k' o.
Proof.
  intros N. induction o as [|[k0 x] r IH]; cbn.
  - apply string_eqb_false in N.
    destruct (string_eqb k k') eqn:E; [|reflexivity].
    apply string_eqb_true in E. apply string_eqb_false in N. congruence.
  - destruct (string_eqb k0 k) eqn:E; cbn.
    + apply string_eqb_true in E. subst k0.
      destruct (string_eqb k k') eqn:E'; [|reflexivity].
      apply string_eqb_true in E'. congruence.
    + now rewrite IH.
Qed.

Lemma set_own_fresh (k : jsstring) (a : Addr) (o : list (jsstring * Addr)) :
  get_own k o = None -> set_own k a o = o ++ [(k, a)].
Proof.
  induction o as [|[k0 x] r IH]; cbn; [reflexivity|].
  destruct (string_eqb k0 k); [discriminate|]. intros H. now rewrite IH.
Qed.

Lemma get_own_delete_same (k : jsstring) (o : list (jsstring * Addr)) :
  get_own k (delete_own k o) = None.
Proof.
  unfold delete_own. induction o as [|[k0 x] r IH]; cbn; [reflexivity|].
  destruct (string_eqb k0 k) eqn:E; cbn; [exact IH|]. now rewrite E.
Qed.

Lemma get_own_delete_other (k k' : jsstring) (o : list (jsstring * Addr)) :
  k' <> k -> get_own k' (delete_own k o) = get_own k' o.
Proof.
  intros N. unfold delete_own. induction o as [|[k0 x] r IH]; cbn; [reflexivity|].
  destruct (string_eqb k0 k) eqn:E; cbn.
  - apply string_eqb_true in E. subst k0.
    destruct (string_eqb k k') eqn:E'; [|exact IH].
    apply string_eqb_true in E'. congruence.
  - now rewrite IH.
Qed.

Lemma get_own_In (k : jsstring) (a : Addr) (o : list (jsstring * Addr)) :
  get_own k o = Some a -> In a (map snd o).
Proof.
  induction o as [|[k0 x] r IH]; cbn; [discriminate|].
  destruct (string_eqb k0 k); [intros [= ->]; now left|auto].
Qed.

Lemma get_own_separate (k k' : jsstring) (a a' : Addr)
    (o : list (jsstring * Addr)) :
  NoDup (map snd o) -> k <> k' ->
  get_own k o = Some a -> get_own k' o = Some a' -> a <> a'.
Proof.
  intros D N. induction o as [|[k0 x] r IH]; cbn; [discriminate|].
  cbn in D. inversion D as [|? ? Hx Hr]; subst.
  destruct (string_eqb k0 k) eqn:E, (string_eqb k0 k') eqn:E'.
  - apply string_eqb_true in E, E'. congruence.
  - intros [= <-] H'. apply get_own_In in H'. congruence.
  - intros H [= <-]. apply get_own_In in H. congruence.
  - now apply IH.
Qed.

Lemma delete_own_addresses (k : jsstring) (o : list (jsstring * Addr)) :
  NoDup (map snd o) -> NoDup (map snd (delete_own k o)).
Proof.
  unfold delete_own. induction o as [|[k0 x] r IH]; cbn; [auto|]. intros D.
  inversion D as [|? ? Hx Hr]; subst.
  destruct (string_eqb k0 k); cbn; [auto|]. constructor; [|auto].
  intros C. apply Hx. clear -C. induction r as [|[k1 y] r IH]; cbn in *; [auto|].
  destruct (string_eqb k1 k); cbn in *; tauto.
Qed.

Lemma delete_own_incl (k : jsstring) (o : list (jsstring * Addr)) (a : Addr) :
  In a (map snd (delete_own k o)) -> In a (map snd o).
Proof.
  unfold delete_own. induction o as [|[k1 y] r IH]; cbn in *; [auto|].
  destruct (string_eqb k1 k); cbn in *; tauto.
Qed.

Lemma indexOf_first `{Host} (l1 l2 : list Handler) (h : Handler) :
  ~ In h l1 ->
  indexOf (l1 ++ h :: l2) h = Some (List.length l1)
  /\ splice_one (List.length l1) (l1 ++ h :: l2) = l1 ++ l2.
Proof.
  induction l1 as [|x r IH]; cbn; intros N.
  - destruct (Handler_eq_dec h h); [auto|contradiction].
  - destruct (Handler_eq_dec x h) as [->|_]; [tauto|].
    destruct IH as [-> ->]; [tauto|]. auto.
Qed.

Lemma indexOf_absent `{Host} (l : list Handler) (h : Handler) :
  ~ In h l -> indexOf l h = None.
Proof.
  induction l as [|x r IH]; cbn; intros N; [reflexivity|].
  destruct (Handler_eq_dec x h) as [->|_]; [tauto|]. rewrite IH; tauto.
Qed.

Lemma hasOwnProperty_plain `{Host} (m : Machine) (key : jsstring) :
  shadowed m = false -> hasOwnProperty m key = Normal (get_own key (events m)).
Proof.
  unfold shadowed, hasOwnProperty.
  destruct (get_own (lit "hasOwnProperty") (events m)); [discriminate|auto].
Qed.

Lemma hasOwnProperty_shadowed `{Host} (m : Machine) (key : jsstring) :
  shadowed m = true -> hasOwnProperty m key = Abrupt NotAFunction.
Proof.
  unfold shadowed, hasOwnProperty.
  destruct (get_own (lit "hasOwnProperty") (events m)); [auto|discriminate].
Qed.

(** ** The emitter: registration *)

Lemma on_result `{Host} (t : jsstring) (h : Handler) (m : Machine) :
  well_formed m -> shadowed m = false ->
  exists m',
    on t h m = Normal (ReturnsThis, m')
    /\ well_formed m' /\ world m' = world m /\ argArrays m' = argArrays m
    /\ (t <> lit "__proto__" ->
        handlers_of m' t
        = Some (match handlers_of m t with Some l => l | None => [] end
                ++ [h]))
    /\ (t = lit "__proto__" -> events m' = events m)
    /\ (forall t', t' <> t -> handlers_of m' t' = handlers_of m t').
Proof.
  intros (D & V & P) S. unfold on. rewrite (hasOwnProperty_plain m t S).
  cbn [and_then]. unfold handlers_of.
  destruct (get_own t (events m)) as [a|] eqn:G.
  - eexists. split; [reflexivity|]. cbn [option_map].
    assert (a < List.length (handlerArrays m))%nat as Ha.
    { rewrite Forall_forall in V. apply V. now apply (get_own_In t). }
    repeat split; cbn [with_handlerArrays events handlerArrays world argArrays];
      try assumption.
    + rewrite length_store. exact V.
    + intros _. rewrite G. cbn [option_map]. now rewrite fetch_store_same.
    + intros t' N. destruct (get_own t' (events m)) as [a'|] eqn:G';
        [|reflexivity].
      cbn [option_map]. rewrite fetch_store_other; [reflexivity|].
      exact (get_own_separate t t' a a' (events m) D (fun e => N (eq_sym e)) G G').
  - eexists. split; [reflexivity|]. unfold put.
    destruct (string_eqb t (lit "__proto__")) eqn:E.
    + apply string_eqb_true in E. subst t.
      repeat split;
        cbn [with_handlerArrays with_events_proto events handlerArrays world
             argArrays]; try assumption.
      * rewrite length_app. eapply Forall_impl; [|exact V]. cbn. intros; lia.
      * intros C. now contradiction C.
      * intros t' N. destruct (get_own t' (events m)) as [a'|] eqn:G';
          [|reflexivity].
        cbn [option_map]. rewrite fetch_app_old; [reflexivity|].
        rewrite Forall_forall in V. apply V. now apply (get_own_In t').
    + apply string_eqb_false in E.
      repeat split;
        cbn [with_handlerArrays with_events events handlerArrays world
             argArrays]; try assumption.
      * rewrite (set_own_fresh _ _ _ G), map_app. cbn [map snd].
        apply NoDup_app; [exact D|repeat constructor; intros []|].
        intros a Ha [<-|[]]. rewrite Forall_forall in V. specialize (V _ Ha). lia.
      * rewrite (set_own_fresh _ _ _ G), map_app, length_app. cbn [map snd].
        apply Forall_app. split.
        -- eapply Forall_impl; [|exact V]. cbn. intros; lia.
        -- repeat constructor. cbn. lia.
      * rewrite get_own_set_other; [exact P|]. congruence.
      * intros _. rewrite get_own_set_same. cbn [option_map].
        now rewrite fetch_app_new.
      * intros C. contradiction.
      * intros t' N. rewrite get_own_set_other by exact N.
        destruct (get_own t' (events m)) as [a'|] eqn:G'; [|reflexivity].
        cbn [option_map]. rewrite fetch_app_old; [reflexivity|].
        rewrite Forall_forall in V. apply V. now apply (get_own_In t').
Qed.

Lemma handlers_of_none `{Host} (m : Machine) (t : jsstring) :
  handlers_of m t = None <-> get_own t (events m) = None.
Proof.
  unfold handlers_of. destruct (get_own t (events m)); cbn; split;
    congruence.
Qed.

Lemma off_handler_result `{Host} (t : jsstring) (h : Handler) (m : Machine)
    (l : list Handler) :
  well_formed m -> shadowed m = false -> handlers_of m t = Some l ->
  exists m',
    off (OffHandler t h) m = Normal (ReturnsThis, m')
    /\ well_formed m' /\ world m' = world m /\ argArrays m' = argArrays m
    /\ events m' = events m
    /\ (forall l1 l2, l = l1 ++ h :: l2 -> ~ In h l1 ->
        handlers_of m' t = Some (l1 ++ l2))
    /\ (~ In h l -> m' = m)
    /\ (forall t', t' <> t -> handlers_of m' t' = handlers_of m t').
Proof.
  intros (D & V & P) S Hl. cbn [off]. unfold _offByHandler.
  rewrite (hasOwnProperty_plain m t S). cbn [and_then].
  unfold handlers_of in *.
  destruct (get_own t (events m)) as [a|] eqn:G; [|discriminate Hl].
  cbn [option_map] in Hl. injection Hl as Hl.
  assert (a < List.length (handlerArrays m))%nat as Ha.
  { rewrite Forall_forall in V. apply V. now apply (get_own_In t). }
  rewrite Hl. destruct (indexOf l h) as [i|] eqn:I.
  - eexists. split; [reflexivity|]. unfold well_formed.
    cbn [with_handlerArrays events handlerArrays world argArrays].
    split; [|split; [reflexivity|split; [reflexivity|split; [reflexivity|]]]].
    + split; [exact D|]. split; [|exact P]. now rewrite length_store.
    + rewrite G. cbn [option_map]. rewrite fetch_store_same by exact Ha.
      split; [|split].
      * intros l1 l2 -> N. destruct (indexOf_first l1 l2 h N) as [I' Sp].
        rewrite I' in I. injection I as <-. now rewrite Sp.
      * intros N. rewrite (indexOf_absent l h N) in I. discriminate I.
      * intros t' N. destruct (get_own t' (events m)) as [a'|] eqn:G';
          [|reflexivity].
        cbn [option_map]. rewrite fetch_store_other; [reflexivity|].
        exact (get_own_separate t t' a a' (events m) D
                 (fun e => N (eq_sym e)) G G').
  - exists m. split; [reflexivity|].
    split; [now repeat split|].
    split; [reflexivity|split; [reflexivity|split; [reflexivity|]]].
    rewrite G. cbn [option_map]. split; [|split]; auto.
    intros l1 l2 -> N. destruct (indexOf_first l1 l2 h N) as [I' _].
    rewrite I' in I. discriminate I.
Qed.

Lemma off_type_result `{Host} (t : jsstring) (m : Machine) :
  shadowed m = false ->
  exists m',
    off (OffType t) m = Normal (ReturnsThis, m')
    /\ (well_formed m -> well_formed m')
    /\ world m' = world m /\ argArrays m' = argArrays m
    /\ handlerArrays m' = handlerArrays m
    /\ handlers_of m' t = None
    /\ (forall t', t' <> t -> handlers_of m' t' = handlers_of m t').
Proof.
  intros S. cbn [off]. unfold _offByType.
  rewrite (hasOwnProperty_plain m t S). cbn [and_then].
  destruct (get_own t (events m)) as [a|] eqn:G.
  - eexists. split; [reflexivity|]. unfold handlers_of, well_formed.
    cbn [with_events events handlerArrays world argArrays].
    split; [|split; [reflexivity|split; [reflexivity|split; [reflexivity|]]]].
    + intros (D & V & P). split; [now apply delete_own_addresses|]. split.
      * rewrite Forall_forall in *. intros x Hx. apply V.
        now apply (delete_own_incl t).
      * destruct (list_eq_dec ascii_dec (lit "__proto__") t) as [<-|N].
        -- apply get_own_delete_same.
        -- now rewrite get_own_delete_other.
    + rewrite get_own_delete_same. split; [reflexivity|].
      intros t' N. now rewrite get_own_delete_other.
  - exists m. split; [reflexivity|]. split; [auto|].
    repeat (split; [reflexivity|]).
    split; [now apply handlers_of_none|auto].
Qed.

Lemma call_result `{Host} (c : Call) (m m' : Machine) (r : Returned) :
  well_formed m -> call c m = Normal (r, m') ->
  well_formed m' /\ world m' = world m /\ argArrays m' = argArrays m.
Proof.
  intros W. destruct (shadowed m) eqn:S.
  - destruct c as [t h|[|t|t h]]; cbn [call off];
      unfold on, _offByType, _offByHandler, _offAll;
      rewrite ?(hasOwnProperty_shadowed m _ S); cbn [and_then];
      try discriminate.
    intros [= <- <-]. repeat split; try reflexivity; constructor.
  - destruct c as [t h|[|t|t h]]; cbn [call].
    + destruct (on_result t h m W S) as (m1 & -> & W1 & Hw & Ha & _).
      intros [= <- <-]. auto.
    + cbn [off]. unfold _offAll. intros [= <- <-].
      repeat split; try reflexivity; constructor.
    + destruct (off_type_result t m S) as (m1 & -> & W1 & Hw & Ha & _).
      intros [= <- <-]. auto.
    + destruct (handlers_of m t) as [l|] eqn:Hl.
      * destruct (off_handler_result t h m l W S Hl)
          as (m1 & -> & W1 & Hw & Ha & _).
        intros [= <- <-]. auto.
      * cbn [off]. unfold _offByHandler.
        rewrite (hasOwnProperty_plain m t S). cbn [and_then].
        apply handlers_of_none in Hl. rewrite Hl. intros [= <- <-]. auto.
Qed.

(** X18: after any calls of [on] and [off] on a new emitter, none of which
    throws, no two types share an array of handlers, the array of every
    type is in the heap and [__proto__] is not an own property of
    [events]; the world and the argument arrays are untouched, since no
    handler is called. *)
Theorem registrations_well_formed `{Host} (w : World) (cs : list Call)
    (m : Machine) :
  calls cs (Emitter w) = Normal m ->
  well_formed m /\ world m = w /\ argArrays m = [].
Proof.
  assert (forall m0, well_formed m0 -> calls cs m0 = Normal m ->
            well_formed m /\ world m = world m0
            /\ argArrays m = argArrays m0) as G.
  { induction cs as [|c cs IH]; intros m0 W; cbn [calls].
    - intros [= <-]. auto.
    - destruct (call c m0) as [[r m1]|e] eqn:C; cbn [and_then snd];
        [|discriminate].
      destruct (call_result c m0 m1 r W C) as (W1 & Hw & Ha).
      intros R. destruct (IH m1 W1 R) as (W2 & Hw2 & Ha2).
      split; [exact W2|]. split; congruence. }
  intros R. apply (G (Emitter w)); [|exact R].
  repeat split; constructor.
Qed.

(** X19: [on], for a type other than [__proto__], returns [this] and puts
    the handler at the end of the handlers of the type, which it registers
    when it was not; the handlers of every other type stay as they are. *)
Theorem on_appends `{Host} (t : jsstring) (h : Handler) (m : Machine) :
  well_formed m -> shadowed m = false -> t <> lit "__proto__" ->
  exists m',
    on t h m = Normal (ReturnsThis, m')
    /\ handlers_of m' t
       = Some (match handlers_of m t with Some l => l | None => [] end ++ [h])
    /\ forall t', t' <> t -> handlers_of m' t' = handlers_of m t'.
Proof.
  intros W S N.
  destruct (on_result t h m W S) as (m' & R & _ & _ & _ & A & _ & O).
  exists m'. auto.
Qed.

(** X20: [off(type, handler)] on a registered type returns [this] and
    removes the first registration of the handler, and no other; a handler
    that is not registered for the type leaves everything as it is; the
    handlers of every other type stay as they are. *)
Theorem off_handler_removes_first `{Host} (t : jsstring) (h : Handler)
    (m : Machine) (l : list Handler) :
  well_formed m -> shadowed m = false -> handlers_of m t = Some l ->
  exists m',
    off (OffHandler t h) m = Normal (ReturnsThis, m')
    /\ (forall l1 l2, l = l1 ++ h :: l2 -> ~ In h l1 ->
        handlers_of m' t = Some (l1 ++ l2))
    /\ (~ In h l -> m' = m)
    /\ (forall t', t' <> t -> handlers_of m' t' = handlers_of m t').
Proof.
  intros W S Hl.
  destruct (off_handler_result t h m l W S Hl)
    as (m' & R & _ & _ & _ & _ & A & B & C).
  exists m'. auto.
Qed.

(** X21: [off(type)] returns [this], leaves the type unregistered and the
    handlers of every other type as they are. *)
Theorem off_type_unregisters `{Host} (t : jsstring) (m : Machine) :
  shadowed m = false ->
  exists m',
    off (OffType t) m = Normal (ReturnsThis, m')
    /\ handlers_of m' t = None
    /\ forall t', t' <> t -> handlers_of m' t' = handlers_of m t'.
Proof.
  intros S.
  destruct (off_type_result t m S) as (m' & R & _ & _ & _ & _ & A & B).
  exists m'. auto.
Qed.

(** X22: for a type that is not registered, [off(type, handler)] returns
    [undefined] where [off(type)] returns [this], and [trigger] returns
    [undefined]; all three leave everything as it is: no handler is called
    and the argument array is not changed. *)
Theorem unregistered_type `{B : Behaviour} (t : jsstring) (h : Handler)
    (now : Date) (args : option Addr) (m : Machine) :
  shadowed m = false -> handlers_of m t = None ->
  off (OffHandler t h) m = Normal (ReturnsUndefined, m)
  /\ off (OffType t) m = Normal (ReturnsThis, m)
  /\ trigger now (ByName t) args m = Normal (ReturnsUndefined, m).
Proof.
  intros S N. apply handlers_of_none in N.
  cbn [off]. unfold _offByHandler, _offByType, trigger, _dispatch.
  cbn [type]. rewrite (hasOwnProperty_plain m t S). cbn [and_then].
  rewrite N. auto.
Qed.

(** X23: registering a handler for the type [hasOwnProperty] succeeds and
    breaks the emitter: from then on [on], [off] with a type and [trigger]
    throw a TypeError, whatever their arguments, until [off()] replaces
    [events]. *)
Theorem hasOwnProperty_registration `{B : Behaviour} (h : Handler)
    (m : Machine) :
  shadowed m = false ->
  exists m',
    on (lit "hasOwnProperty") h m = Normal (ReturnsThis, m')
    /\ (forall t h', on t h' m' = Abrupt NotAFunction)
    /\ (forall t, off (OffType t) m' = Abrupt NotAFunction)
    /\ (forall t h', off (OffHandler t h') m' = Abrupt NotAFunction)
    /\ (forall now event args,
          trigger now event args m' = Abrupt NotAFunction)
    /\ exists m'',
         off OffAll m' = Normal (ReturnsThis, m'') /\ shadowed m'' = false.
Proof.
  intros S. unfold on at 1. rewrite (hasOwnProperty_plain m _ S).
  cbn [and_then].
  assert (get_own (lit "hasOwnProperty") (events m) = None) as G.
  { unfold shadowed in S. now destruct (get_own _ (events m)). }
  rewrite G. eexists. split; [reflexivity|].
  set (m' := put _ _ _).
  assert (shadowed m' = true) as S'.
  { unfold m', put, shadowed.
    change (string_eqb (lit "hasOwnProperty") (lit "__proto__")) with false.
    cbv iota. cbn [with_events events]. now rewrite get_own_set_same. }
  repeat split.
  - intros t h'. unfold on. now rewrite (hasOwnProperty_shadowed m' t S').
  - intros t. cbn [off]. unfold _offByType.
    now rewrite (hasOwnProperty_shadowed m' t S').
  - intros t h'. cbn [off]. unfold _offByHandler.
    now rewrite (hasOwnProperty_shadowed m' t S').
  - intros now event args. unfold trigger, _dispatch.
    now rewrite (hasOwnProperty_shadowed m' _ S').
  - eexists. split; reflexivity.
Qed.

(** X24: [on] with the type [__proto__] returns [this] and registers
    nothing: the own properties of [events] and the handlers of every type
    are as before, and triggering [__proto__] afterwards returns
    [undefined]. *)
Theorem proto_registration_is_lost `{B : Behaviour} (h : Handler)
    (m : Machine) :
  well_formed m -> shadowed m = false ->
  exists m',
    on (lit "__proto__") h m = Normal (ReturnsThis, m')
    /\ events m' = events m
    /\ (forall t, handlers_of m' t = handlers_of m t)
    /\ forall now args,
         trigger now (ByName (lit "__proto__")) args m'
         = Normal (ReturnsUndefined, m').
Proof.
  intros W S.
  destruct (on_result (lit "__proto__") h m W S)
    as (m' & R & W' & _ & _ & _ & E & O).
  exists m'. specialize (E eq_refl).
  split; [exact R|]. split; [exact E|].
  destruct W as (_ & _ & P).
  assert (shadowed m' = false) as S' by (unfold shadowed; now rewrite E).
  split.
  - intros t. destruct (list_eq_dec ascii_dec t (lit "__proto__")) as [->|N];
      [|now apply O].
    unfold handlers_of. now rewrite E, P.
  - intros now args. unfold trigger, _dispatch. cbn [type].
    rewrite (hasOwnProperty_plain m' _ S'). cbn [and_then].
    now rewrite E, P.
Qed.

(** ** The emitter: dispatch *)

Lemma with_world_same `{Host} (m : Machine) : with_world m (world m) = m.
Proof. now destruct m. Qed.

Lemma skipn_nth_error {A : Type} (l : list A) (k : nat) :
  skipn k l
  = match nth_error l k with
    | Some x => x :: skipn (S k) l
    | None => []
    end.
Proof.
  revert k. induction l as [|x r IH]; intros [|k]; cbn [skipn nth_error];
    try reflexivity.
  rewrite IH. destruct (nth_error r k); [|reflexivity].
  destruct r; reflexivity.
Qed.

Lemma skipn_nth_error_none {A : Type} (l : list A) (k : nat) :
  nth_error l k = None -> skipn (S k) l = [].
Proof.
  intros N. apply nth_error_None in N. apply skipn_all2. lia.
Qed.

(** The handlers [forEach] calls are those the array holds at the indices
    it still visits; when they are passive, their actions are composed in
    that order. *)
Lemma forEach_passive `{B : Behaviour}
    (act : Handler -> list Element -> World -> World) (a r : Addr) (n : nat) :
  forall (k : nat) (m : Machine),
    Forall (passive act) (firstn n (skipn k (fetch (handlerArrays m) a))) ->
    forEach n k a r m
    = Normal (with_world m
                (fold_left (fun w h => act h (fetch (argArrays m) r) w)
                   (firstn n (skipn k (fetch (handlerArrays m) a)))
                   (world m))).
Proof.
  induction n as [|n IH]; intros k m P; cbn [forEach firstn fold_left].
  - now rewrite with_world_same.
  - rewrite (skipn_nth_error _ k) in P |- *.
    destruct (nth_error (fetch (handlerArrays m) a) k) as [h|] eqn:N.
    + cbn [firstn fold_left] in P |- *. inversion P as [|? ? Ph Pr]; subst.
      rewrite (Ph (fetch (argArrays m) r) m). cbn [and_then].
      rewrite (IH (S k) (with_world m _)); [reflexivity|exact Pr].
    + rewrite (IH (S k) m).
      * rewrite (skipn_nth_error_none _ k N). now destruct n.
      * rewrite (skipn_nth_error_none _ k N). destruct n; constructor.
Qed.

Lemma forEach_step `{B : Behaviour} (n k : nat) (a r : Addr) (m : Machine) :
  forEach (Datatypes.S n) k a r m
  = match nth_error (fetch (handlerArrays m) a) k with
    | Some handler =>
        m' <~ apply handler (fetch (argArrays m) r) m ;;
        forEach n (Datatypes.S k) a r m'
    | None => forEach n (Datatypes.S k) a r m
    end.
Proof. reflexivity. Qed.

Lemma store_app_new {A : Type} (heap : list (list A)) (l l' : list A) :
  store (heap ++ [l]) (List.length heap) l' = heap ++ [l'].
Proof. induction heap as [|x r IH]; cbn; [reflexivity|now rewrite IH]. Qed.

Lemma dispatch_registered `{B : Behaviour} (event : EventFunc)
    (args : option Addr) (m : Machine) (a : Addr) :
  shadowed m = false -> get_own (type event) (events m) = Some a ->
  _dispatch event args m
  = (m' <~ forEach (List.length (fetch (handlerArrays m) a)) 0 a
             (fst (with_event event args m)) (snd (with_event event args m)) ;;
     Normal (ReturnsThis, m')).
Proof.
  intros S G. unfold _dispatch. rewrite (hasOwnProperty_plain m _ S).
  cbn [and_then]. rewrite G. destruct args as [r|]; cbn [with_event fst snd].
  - reflexivity.
  - cbn [with_argArrays argArrays handlerArrays].
    now rewrite fetch_app_new, store_app_new.
Qed.

Lemma dispatch_passive `{B : Behaviour}
    (act : Handler -> list Element -> World -> World) (event : EventFunc)
    (args : option Addr) (m : Machine) (l : list Handler) :
  shadowed m = false -> handlers_of m (type event) = Some l ->
  Forall (passive act) l ->
  _dispatch event args m
  = Normal (ReturnsThis,
            with_world (snd (with_event event args m))
              (fold_left
                 (fun w h =>
                    act h (fetch (argArrays (snd (with_event event args m)))
                             (fst (with_event event args m))) w)
                 l (world m))).
Proof.
  intros S Hl P. unfold handlers_of in Hl.
  destruct (get_own (type event) (events m)) as [a|] eqn:G;
    [|discriminate Hl].
  cbn [option_map] in Hl. injection Hl as Hl.
  rewrite (dispatch_registered event args m a S G).
  set (m1 := snd (with_event event args m)).
  assert (handlerArrays m1 = handlerArrays m /\ world m1 = world m) as [E1 E2]
    by (unfold m1; destruct args; split; reflexivity).
  rewrite (forEach_passive act); rewrite E1, Hl; cbn [skipn];
    rewrite firstn_all; [|exact P].
  cbn [and_then]. now rewrite E2.
Qed.

(** X25: [trigger] with the name of a registered type and no argument
    array returns [this] after calling the handlers of the type once each,
    in the order of their registration, each with the new event, stamped
    with the time of the call, as its only argument; the handlers are
    passive ones, which only act on the world. *)
Theorem trigger_calls_in_order `{B : Behaviour}
    (act : Handler -> list Element -> World -> World) (now : Date)
    (t : jsstring) (m : Machine) (l : list Handler) :
  shadowed m = false -> handlers_of m t = Some l ->
  Forall (passive act) l ->
  trigger now (ByName t) None m
  = Normal (ReturnsThis,
            with_world
              (with_argArrays m
                 (argArrays m
                  ++ [[AnEvent {| type := t; timeStamp := now |}]]))
              (fold_left
                 (fun w h =>
                    act h [AnEvent {| type := t; timeStamp := now |}] w)
                 l (world m))).
Proof.
  intros S Hl P. unfold trigger.
  rewrite (dispatch_passive act {| type := t; timeStamp := now |} None m l
             S Hl P).
  cbn [with_event fst snd with_argArrays argArrays].
  now rewrite fetch_app_new.
Qed.

(** X26: [trigger] puts the event in front of the array it is given and
    leaves it there: passive handlers are called with the event followed
    by the elements of the array, and a second [trigger] with the same
    array calls them with the second event, the first event and then those
    elements. *)
Theorem trigger_changes_argument_array `{B : Behaviour}
    (act : Handler -> list Element -> World -> World) (now1 now2 : Date)
    (t : jsstring) (r : Addr) (m : Machine) (l : list Handler) :
  shadowed m = false -> handlers_of m t = Some l ->
  Forall (passive act) l ->
  (r < List.length (argArrays m))%nat ->
  exists m1 m2,
    trigger now1 (ByName t) (Some r) m = Normal (ReturnsThis, m1)
    /\ fetch (argArrays m1) r = named_event t now1 :: fetch (argArrays m) r
    /\ world m1
       = fold_left
           (fun w h => act h (named_event t now1 :: fetch (argArrays m) r) w)
           l (world m)
    /\ trigger now2 (ByName t) (Some r) m1 = Normal (ReturnsThis, m2)
    /\ fetch (argArrays m2) r
       = named_event t now2 :: named_event t now1 :: fetch (argArrays m) r
    /\ world m2
       = fold_left
           (fun w h =>
              act h (named_event t now2 :: named_event t now1
                     :: fetch (argArrays m) r) w)
           l (world m1).
Proof.
  unfold named_event.
  set (e1 := AnEvent {| type := t; timeStamp := now1 |}).
  set (e2 := AnEvent {| type := t; timeStamp := now2 |}).
  set (old := fetch (argArrays m) r).
  intros S Hl P Hr. unfold trigger.
  rewrite (dispatch_passive act {| type := t; timeStamp := now1 |} (Some r)
             m l S Hl P).
  cbn [with_event fst snd with_argArrays argArrays].
  rewrite (fetch_store_same (argArrays m) r _ Hr). fold e1 old.
  eexists. eexists. split; [reflexivity|].
  cbn [with_world with_argArrays argArrays world].
  rewrite (fetch_store_same (argArrays m) r _ Hr).
  split; [reflexivity|]. split; [reflexivity|].
  match goal with |- _dispatch _ _ ?M = _ /\ _ => set (m1 := M) end.
  assert (shadowed m1 = false) as S1 by exact S.
  assert (handlers_of m1 t = Some l) as Hl1 by exact Hl.
  rewrite (dispatch_passive act {| type := t; timeStamp := now2 |} (Some r)
             m1 l S1 Hl1 P).
  cbn [with_event fst snd with_argArrays argArrays].
  assert (fetch (argArrays m1) r = e1 :: old) as F1.
  { unfold m1. cbn [with_world with_argArrays argArrays].
    now apply fetch_store_same. }
  assert (r < List.length (argArrays m1))%nat as Hr1.
  { unfold m1. cbn [with_world with_argArrays argArrays].
    now rewrite length_store. }
  rewrite (fetch_store_same (argArrays m1) r _ Hr1), F1. fold e2.
  split; [reflexivity|].
  cbn [with_world with_argArrays argArrays world].
  rewrite (fetch_store_same (argArrays m1) r _ Hr1).
  split; reflexivity.
Qed.

(** X27: when the first handler of a type takes itself off during a
    dispatch, [forEach] skips the handler registered after it: that one is
    not called, whatever it would do, the passive handlers after it are,
    and the type is left with all of them but the first. *)
Theorem self_removal_skips_next `{B : Behaviour}
    (act : Handler -> list Element -> World -> World) (now : Date)
    (t : jsstring) (m : Machine) (h1 h2 : Handler) (rest : list Handler) :
  well_formed m -> shadowed m = false ->
  handlers_of m t = Some (h1 :: h2 :: rest) ->
  removes_itself t h1 ->
  Forall (passive act) rest ->
  exists m',
    trigger now (ByName t) None m = Normal (ReturnsThis, m')
    /\ handlers_of m' t = Some (h2 :: rest)
    /\ world m'
       = fold_left
           (fun w h => act h [AnEvent {| type := t; timeStamp := now |}] w)
           rest (world m).
Proof.
  intros W S Hl R P. unfold trigger.
  set (ev := {| type := t; timeStamp := now |}).
  pose proof Hl as Hl0. unfold handlers_of in Hl0.
  destruct (get_own t (events m)) as [a|] eqn:G; [|discriminate Hl0].
  cbn [option_map] in Hl0. injection Hl0 as Hl0.
  rewrite (dispatch_registered ev None m a S G).
  cbn [with_event fst snd]. set (m1 := with_argArrays m _).
  rewrite Hl0. cbn [List.length]. rewrite forEach_step.
  assert (fetch (handlerArrays m1) a = h1 :: h2 :: rest) as -> by exact Hl0.
  cbn [nth_error]. rewrite (R _ m1).
  assert (well_formed m1) as W1 by exact W.
  assert (shadowed m1 = false) as S1 by exact S.
  assert (handlers_of m1 t = Some (h1 :: h2 :: rest)) as Hl1 by exact Hl.
  destruct (off_handler_result t h1 m1 _ W1 S1 Hl1)
    as (m2 & -> & W2 & Hw & Ha & He & Hrm & _).
  cbn [and_then snd].
  specialize (Hrm [] (h2 :: rest) eq_refl (fun f => f)). cbn [app] in Hrm.
  assert (fetch (handlerArrays m2) a = h2 :: rest) as F2.
  { unfold handlers_of in Hrm. rewrite He in Hrm.
    change (events m1) with (events m) in Hrm. rewrite G in Hrm.
    now injection Hrm. }
  assert (fetch (argArrays m2) (List.length (argArrays m)) = [AnEvent ev])
    as A2.
  { rewrite Ha. unfold m1. cbn [with_argArrays argArrays].
    apply fetch_app_new. }
  rewrite (forEach_passive act a _ (Datatypes.S (List.length rest)) 1 m2);
    rewrite F2; cbn [skipn];
    rewrite (firstn_all2 (n := Datatypes.S (List.length rest)) rest) by lia;
    [|exact P].
  cbn [and_then]. eexists. split; [reflexivity|].
  split.
  - unfold handlers_of. cbn [with_world events handlerArrays].
    rewrite He. change (events m1) with (events m). rewrite G.
    cbn [option_map]. now rewrite F2.
  - cbn [with_world world]. now rewrite A2, Hw.
Qed.

(** X28: a handler that the first handler of a type registers for that type
    during a dispatch is not called by this dispatch: the passive handlers
    registered before are, and the new handler is at the end of the
    handlers afterwards. *)
Theorem registration_during_dispatch `{B : Behaviour}
    (act : Handler -> list Element -> World -> World) (now : Date)
    (t : jsstring) (m : Machine) (h1 h3 : Handler) (rest : list Handler) :
  well_formed m -> shadowed m = false ->
  handlers_of m t = Some (h1 :: rest) ->
  registers t h1 h3 ->
  Forall (passive act) rest ->
  exists m',
    trigger now (ByName t) None m = Normal (ReturnsThis, m')
    /\ handlers_of m' t = Some (h1 :: rest ++ [h3])
    /\ world m'
       = fold_left
           (fun w h => act h [AnEvent {| type := t; timeStamp := now |}] w)
           rest (world m).
Proof.
  intros W S Hl R P. unfold trigger.
  set (ev := {| type := t; timeStamp := now |}).
  pose proof Hl as Hl0. unfold handlers_of in Hl0.
  destruct (get_own t (events m)) as [a|] eqn:G; [|discriminate Hl0].
  cbn [option_map] in Hl0. injection Hl0 as Hl0.
  assert (t <> lit "__proto__") as Np.
  { intros ->. destruct W as (_ & _ & Pp). rewrite Pp in G. discriminate G. }
  rewrite (dispatch_registered ev None m a S G).
  cbn [with_event fst snd]. set (m1 := with_argArrays m _).
  rewrite Hl0. cbn [List.length]. rewrite forEach_step.
  assert (fetch (handlerArrays m1) a = h1 :: rest) as -> by exact Hl0.
  cbn [nth_error]. rewrite (R _ m1).
  assert (well_formed m1) as W1 by exact W.
  assert (shadowed m1 = false) as S1 by exact S.
  assert (handlers_of m1 t = Some (h1 :: rest)) as Hl1 by exact Hl.
  assert (a < List.length (handlerArrays m1))%nat as Va.
  { destruct W1 as (_ & V & _). rewrite Forall_forall in V. apply V.
    now apply (get_own_In t). }
  unfold on. rewrite (hasOwnProperty_plain m1 t S1). cbn [and_then].
  change (events m1) with (events m). rewrite G. cbn [and_then snd].
  set (m2 := with_handlerArrays m1 _).
  assert (fetch (handlerArrays m2) a = (h1 :: rest) ++ [h3]) as F2.
  { unfold m2. cbn [with_handlerArrays handlerArrays].
    rewrite fetch_store_same by exact Va.
    change (handlerArrays m1) with (handlerArrays m). now rewrite Hl0. }
  assert (fetch (argArrays m2) (List.length (argArrays m)) = [AnEvent ev])
    as A2.
  { unfold m2, m1. cbn [with_handlerArrays with_argArrays argArrays].
    apply fetch_app_new. }
  rewrite (forEach_passive act a _ (List.length rest) 1 m2);
    rewrite F2; cbn [skipn app];
    rewrite (firstn_app (List.length rest)), firstn_all, Nat.sub_diag;
    cbn [firstn]; rewrite app_nil_r; [|exact P].
  cbn [and_then]. eexists. split; [reflexivity|].
  split.
  - unfold handlers_of. cbn [with_world events handlerArrays].
    change (events m2) with (events m). rewrite G.
    cbn [option_map]. now rewrite F2.
  - cbn [with_world world]. now rewrite A2.
Qed.

(** ** Instances of the theorems that have hypotheses *)

(** The amount -1.25 under the default settings. *)
Lemma dollars_cents_recompose_witness :
  dollars {| opts := no_opts; intValue := of_Z (-125);
             value := Fin (-5 # 4); _settings := resolve no_opts;
             _precision := of_Z 100 |} = of_Z (-1)
  /\ cents {| opts := no_opts; intValue := of_Z (-125);
              value := Fin (-5 # 4); _settings := resolve no_opts;
              _precision := of_Z 100 |} = of_Z (-25).
Proof.
  destruct (dollars_cents_recompose (ThisGlobal NaN) (VNumber (Fin (-5 # 4)))
              no_opts
              {| opts := no_opts; intValue := of_Z (-125);
                 value := Fin (-5 # 4); _settings := resolve no_opts;
                 _precision := of_Z 100 |} (-125))
    as (Hd & Hc & _).
  - vm_compute. reflexivity.
  - simpl. lia.
  - reflexivity.
  - vm_compute. reflexivity.
  - split; [exact Hd|exact Hc].
Defined.











(** One unit divided by zero. *)
Lemma divide_by_zero_amount_witness :
  divide (ThisGlobal NaN) (units 1) (VNumber (Fin 0))
  = Ok (mk (resolve no_opts) PInf).
Proof.
  apply (divide_by_zero_amount (ThisGlobal NaN) (VNumber (Fin 1)) no_opts
           (units 1) 100).
  - vm_compute. reflexivity.
  - reflexivity.
Defined.





(** The string [(1.99)]. *)
Lemma parentheses_mean_minus_witness :
  replace_paren (lit "(1.99)") = lit "-1.99"
  /\ Currency_new (ThisGlobal NaN) (VString (lit "(1.99)")) no_opts
     = Currency_new (ThisGlobal NaN) (VString (lit "-1.99")) no_opts.
Proof.
  apply (parentheses_mean_minus (ThisGlobal NaN) (lit "1.99") no_opts).
  reflexivity.
Defined.

(** The string [$1,234.56]. *)
Lemma only_numeric_characters_count_witness :
  Currency_new (ThisGlobal NaN) (VString (lit "$1,234.56")) no_opts
  = Currency_new (ThisGlobal NaN) (VString (lit "1234.56")) no_opts.
Proof.
  apply (only_numeric_characters_count (ThisGlobal NaN) (lit "$1,234.56")
           no_opts).
  reflexivity.
Defined.

(** Seven digits and a comma. *)
Lemma grouping_rules_witness :
  replace_groups groupRegex (lit "$1,") (lit "1234567") = lit "1,234,567"
  /\ replace_groups vedicRegex (lit "$1,") (lit "1234567") = lit "12,34,567".
Proof.
  apply (grouping_rules (lit ",") (lit "1234567")).
  - reflexivity.
  - reflexivity.
Defined.




Lemma sample_machine_well_formed (l : list nat) :
  well_formed (sample_machine l).
Proof.
  repeat split; cbn.
  - repeat constructor. intros [].
  - repeat constructor.
Qed.

(** Two registrations and a removal on a new emitter. *)
Lemma registrations_well_formed_witness :
  well_formed sample_registrations
  /\ world sample_registrations = []
  /\ argArrays sample_registrations = [].
Proof.
  apply (@registrations_well_formed sample_host []
           [@CallOn sample_host (lit "a") 1%nat; @CallOn sample_host (lit "b") 2%nat;
            @CallOff sample_host (@OffHandler sample_host (lit "a") 1%nat)]).
  vm_compute. reflexivity.
Defined.

(** A fourth handler for the type [t]. *)
Lemma on_appends_witness :
  exists m',
    @on sample_host (lit "t") 4%nat (sample_machine [1; 2; 3]%nat)
    = Normal (ReturnsThis, m')
    /\ handlers_of m' (lit "t") = Some [1; 2; 3; 4]%nat.
Proof.
  destruct (@on_appends sample_host (lit "t") 4%nat
              (sample_machine [1; 2; 3]%nat))
    as (m' & Hon & Hh & _).
  - apply sample_machine_well_formed.
  - reflexivity.
  - discriminate.
  - exists m'. split; [exact Hon|exact Hh].
Defined.

(** A handler registered twice. *)
Lemma off_handler_removes_first_witness :
  exists m',
    @off sample_host (@OffHandler sample_host (lit "t") 2%nat) (sample_machine [1; 2; 3; 2]%nat)
    = Normal (ReturnsThis, m')
    /\ handlers_of m' (lit "t") = Some [1; 3; 2]%nat.
Proof.
  destruct (@off_handler_removes_first sample_host (lit "t") 2%nat
              (sample_machine [1; 2; 3; 2]%nat) [1; 2; 3; 2]%nat)
    as (m' & Hoff & Hh & _).
  - apply sample_machine_well_formed.
  - reflexivity.
  - reflexivity.
  - exists m'. split; [exact Hoff|].
    apply (Hh [1%nat] [3; 2]%nat); [reflexivity|].
    simpl. intros [H|[]]. discriminate H.
Defined.

(** The type [t] taken off. *)
Lemma off_type_unregisters_witness :
  exists m',
    @off sample_host (@OffType sample_host (lit "t")) (sample_machine [1; 2; 3]%nat)
    = Normal (ReturnsThis, m')
    /\ handlers_of m' (lit "t") = None.
Proof.
  destruct (@off_type_unregisters sample_host (lit "t")
              (sample_machine [1; 2; 3]%nat))
    as (m' & Hoff & Hh & _).
  - reflexivity.
  - exists m'. split; [exact Hoff|exact Hh].
Defined.

(** The type [u], which is not registered. *)
Lemma unregistered_type_witness :
  @off sample_host (@OffHandler sample_host (lit "u") 1%nat) (sample_machine [1; 2; 3]%nat)
  = Normal (ReturnsUndefined, sample_machine [1; 2; 3]%nat)
  /\ @off sample_host (@OffType sample_host (lit "u")) (sample_machine [1; 2; 3]%nat)
     = Normal (ReturnsThis, sample_machine [1; 2; 3]%nat)
  /\ @trigger sample_host sample_behaviour 0%nat (ByName (lit "u")) None
       (sample_machine [1; 2; 3]%nat)
     = Normal (ReturnsUndefined, sample_machine [1; 2; 3]%nat).
Proof.
  apply (@unregistered_type sample_host sample_behaviour (lit "u") 1%nat
           0%nat None (sample_machine [1; 2; 3]%nat)).
  - reflexivity.
  - reflexivity.
Defined.

(** A handler for the type [hasOwnProperty]. *)
Lemma hasOwnProperty_registration_witness :
  exists m',
    @on sample_host (lit "hasOwnProperty") 2%nat (sample_machine [1; 2; 3]%nat)
    = Normal (ReturnsThis, m')
    /\ @on sample_host (lit "t") 4%nat m' = Abrupt NotAFunction
    /\ @trigger sample_host sample_behaviour 0%nat (ByName (lit "t")) None m'
       = Abrupt NotAFunction.
Proof.
  destruct (@hasOwnProperty_registration sample_host sample_behaviour 2%nat
              (sample_machine [1; 2; 3]%nat))
    as (m' & Hon & Ho & _ & _ & Ht & _).
  - reflexivity.
  - exists m'. split; [exact Hon|]. split; [apply Ho|apply Ht].
Defined.

(** A handler for the type [__proto__]. *)
Lemma proto_registration_is_lost_witness :
  exists m',
    @on sample_host (lit "__proto__") 2%nat (sample_machine [1; 2; 3]%nat)
    = Normal (ReturnsThis, m')
    /\ events m' = events (sample_machine [1; 2; 3]%nat)
    /\ @trigger sample_host sample_behaviour 0%nat (ByName (lit "__proto__"))
         None m'
       = Normal (ReturnsUndefined, m').
Proof.
  destruct (@proto_registration_is_lost sample_host sample_behaviour 2%nat
              (sample_machine [1; 2; 3]%nat))
    as (m' & Hon & He & _ & Ht).
  - apply sample_machine_well_formed.
  - reflexivity.
  - exists m'. split; [exact Hon|]. split; [exact He|apply Ht].
Defined.

(** Three logging handlers. *)
Lemma trigger_calls_in_order_witness :
  exists m',
    @trigger sample_host sample_behaviour 9%nat (ByName (lit "t")) None
      (sample_machine [2; 3; 4]%nat)
    = Normal (ReturnsThis, m')
    /\ world m' = [2; 3; 4]%nat.
Proof.
  eexists. split.
  - apply (@trigger_calls_in_order sample_host sample_behaviour sample_log
             9%nat (lit "t") (sample_machine [2; 3; 4]%nat) [2; 3; 4]%nat).
    + reflexivity.
    + reflexivity.
    + repeat constructor; intros args m; reflexivity.
  - reflexivity.
Defined.

(** Two dispatches with one array. *)
Lemma trigger_changes_argument_array_witness :
  exists m1 m2,
    @trigger sample_host sample_behaviour 8%nat (ByName (lit "t")) (Some 0%nat)
      (sample_machine [2; 3]%nat)
    = Normal (ReturnsThis, m1)
    /\ @trigger sample_host sample_behaviour 9%nat (ByName (lit "t"))
         (Some 0%nat) m1
       = Normal (ReturnsThis, m2)
    /\ fetch (argArrays m2) 0%nat
       = [@named_event sample_host (lit "t") 9%nat;
          @named_event sample_host (lit "t") 8%nat;
          @AnArg sample_host tt].
Proof.
  destruct (@trigger_changes_argument_array sample_host sample_behaviour
              sample_log 8%nat 9%nat (lit "t") 0%nat
              (sample_machine [2; 3]%nat) [2; 3]%nat)
    as (m1 & m2 & H1 & _ & _ & H2 & Ha & _).
  - reflexivity.
  - reflexivity.
  - repeat constructor; intros args m; reflexivity.
  - simpl. lia.
  - exists m1, m2. split; [exact H1|]. split; [exact H2|exact Ha].
Defined.

(** Handler 1 takes itself off: handler 2 is not called. *)
Lemma self_removal_skips_next_witness :
  exists m',
    @trigger sample_host sample_behaviour 9%nat (ByName (lit "t")) None
      (sample_machine [1; 2; 3; 4]%nat)
    = Normal (ReturnsThis, m')
    /\ handlers_of m' (lit "t") = Some [2; 3; 4]%nat
    /\ world m' = [3; 4]%nat.
Proof.
  apply (@self_removal_skips_next sample_host sample_behaviour sample_log
           9%nat (lit "t") (sample_machine [1; 2; 3; 4]%nat) 1%nat 2%nat
           [3; 4]%nat).
  - apply sample_machine_well_formed.
  - reflexivity.
  - reflexivity.
  - intros args m. reflexivity.
  - repeat constructor; intros args m; reflexivity.
Defined.

(** Handler 5 registers handler 7, which is not called. *)
Lemma registration_during_dispatch_witness :
  exists m',
    @trigger sample_host sample_behaviour 9%nat (ByName (lit "t")) None
      (sample_machine [5; 2; 3]%nat)
    = Normal (ReturnsThis, m')
    /\ handlers_of m' (lit "t") = Some [5; 2; 3; 7]%nat
    /\ world m' = [2; 3]%nat.
Proof.
  apply (@registration_during_dispatch sample_host sample_behaviour sample_log
           9%nat (lit "t") (sample_machine [5; 2; 3]%nat) 5%nat 7%nat
           [2; 3]%nat).
  - apply sample_machine_well_formed.
  - reflexivity.
  - reflexivity.
  - intros args m. reflexivity.
  - repeat constructor; intros args m; reflexivity.
Defined.

(** ** Examples from the specification *)

Example format_with_symbol :
  (c <- Currency_new (ThisGlobal NaN) (VNumber (Fin (2469 # 2)))
          {| opt_symbol := Some (lit "$"); opt_separator := None;
             opt_decimal := None; opt_formatWithSymbol := Some true;
             opt_errorOnInvalid := None; opt_precision := None;
             opt_pattern := None; opt_negativePattern := None;
             opt_increment := None; opt_useVedic := None |} ;;
   format c None)
  = Ok (lit "$1,234.50").
Proof. vm_compute. reflexivity. Qed.

Example parenthesised_negative :
  (c <- Currency_new (ThisGlobal NaN) (VString (lit "($1,234.56)")) no_opts ;;
   format c (Some true))
  = Ok (lit "-$1,234.56").
Proof. vm_compute. reflexivity. Qed.

Example distribute_negative :
  option_map
    (fun r => match r with
              | Ok items => map intValue items
              | Throw _ => []
              end)
    (distribute (ThisGlobal NaN) 3
       {| opts := no_opts; intValue := of_Z (-101);
          value := Fin (-101 # 100); _settings := resolve no_opts;
          _precision := of_Z 100 |} 2)
  = Some [of_Z (-51); of_Z (-50)].
Proof. vm_compute. reflexivity. Qed.

Example divide_by_zero :
  (c <- divide (ThisGlobal NaN) (units 1) (VNumber (Fin 0)) ;;
   Ok (intValue c))
  = Ok PInf.
Proof. vm_compute. reflexivity. Qed.
